(** * Table segmentation and clean-up of the Excel processor

    A shallow embedding of [utils.py] (title location, boundary
    calculation, block extraction, sparsity filtering, edge trimming) and of
    the store-facing part of [main.py] (upload and row sums), together with
    the properties of the specification that concern them.

    Modelling conventions.
    - A pandas [DataFrame] is kept by its values: the number of columns and
      the list of rows.  Labels are not kept: [read_excel(header=None)]
      produces a [RangeIndex] on both axes and every stage only selects
      sub-lists of the labels, so labels stay duplicate free and selecting
      by label ([loc], [df[keep_cols]]) selects the same cells as selecting
      by position.  [reset_index(drop=True)] only renumbers the row labels
      and is therefore the identity on this representation.
    - A cell is [Some s] for a string and [None] for [pd.NA].
    - A Python [str] is kept by its UTF-8 encoding, a [string] of bytes.
      Equality, concatenation and the substring test on the encodings are
      those on the strings; [strip] removes the encodings of the blank
      characters of Unicode.
    - [mean] over no cells is NaN and every comparison with NaN is false;
      [all] over no cells is true.
    - A sparsity threshold is a rational and a blank fraction [k / n] is
      compared with it exactly.  The binary64 comparison of the code
      agrees with the exact one as long as [n] stays below 10^15: rounding
      is monotone, and a fraction above 6/10 is above it by at least
      [1 / (5 n)].
    - Python [dict]s whose order is observable are insertion-ordered
      association lists; the others are [gmap]s.
    - A Python exception is the [None] of an [option]. *)

From Stdlib Require Import Ascii QArith DecimalString DecimalNat PrimFloat FloatOps SpecFloat Uint63.
From stdpp Require Import gmap strings list fin_maps sorting.

Local Close Scope Q_scope.
Local Open Scope string_scope.
Local Open Scope list_scope.
Local Open Scope nat_scope.
Local Open Scope stdpp_scope.

(** ** The grid model *)

Definition cell : Type := option string.

Record DataFrame : Type := mkDF {
  ncols : nat;
  rows : list (list cell)
}.

(** [df.shape] *)
Definition shape (df : DataFrame) : nat * nat := (length (rows df), ncols df).

(** Every row has one cell per column. *)
Definition wf_df (df : DataFrame) : Prop :=
  Forall (λ r, length r = ncols df) (rows df).

(** The cell at a position of a row; NA outside the row. *)
Definition cell_at (row : list cell) (j : nat) : cell := default None (row !! j).

(** [data[r, c]] *)
Definition iat (df : DataFrame) (r c : nat) : cell :=
  cell_at (default [] (rows df !! r)) c.

Definition is_na (c : cell) : bool := match c with None => true | Some _ => false end.

(** [str(cell)]: a string is itself, [pd.NA] prints as ["<NA>"]. *)
Definition str_cell (c : cell) : string := default "<NA>" c.

(** [str(n)] for a non-negative integer. *)
Definition str_nat (n : nat) : string := NilZero.string_of_uint (Nat.to_uint n).

(** The characters for which [str.isspace] holds, by the length of their
    UTF-8 encoding: U+0009 to U+000D and U+001C to U+0020 on one byte;
    U+0085 and U+00A0 on two; U+1680, U+2000 to U+200A, U+2028, U+2029,
    U+202F, U+205F and U+3000 on three. *)
Definition is_space (a : ascii) : bool :=
  let n := nat_of_ascii a in
  ((9 <=? n) && (n <=? 13)) || ((28 <=? n) && (n <=? 32)).

Definition is_space2 (a b : ascii) : bool :=
  let m := nat_of_ascii a in
  let n := nat_of_ascii b in
  (m =? 194) && ((n =? 133) || (n =? 160)).

Definition is_space3 (a b c : ascii) : bool :=
  let m := nat_of_ascii a in
  let n := nat_of_ascii b in
  let k := nat_of_ascii c in
  ((m =? 225) && ((n =? 154) && (k =? 128))) ||
  ((m =? 226) && ((n =? 128) &&
     (((128 <=? k) && (k <=? 138)) || (k =? 168) || (k =? 169) || (k =? 175)))) ||
  ((m =? 226) && ((n =? 129) && (k =? 159))) ||
  ((m =? 227) && ((n =? 128) && (k =? 128))).

Section StripBy.

(** The characters to remove, given by their encodings on one, two and
    three bytes. *)
Variable sp1 : ascii → bool.
Variable sp2 : ascii → ascii → bool.
Variable sp3 : ascii → ascii → ascii → bool.

(** The string without the characters to remove at its head. *)
Fixpoint lstrip_by (s : string) : string :=
  match s with
  | EmptyString => EmptyString
  | String a s1 =>
      if sp1 a then lstrip_by s1 else
      match s1 with
      | EmptyString => s
      | String b s2 =>
          if sp2 a b then lstrip_by s2 else
          match s2 with
          | EmptyString => s
          | String c s3 => if sp3 a b c then lstrip_by s3 else s
          end
      end
  end.

End StripBy.

(** [s.lstrip()] *)
Definition lstrip : string → string := lstrip_by is_space is_space2 is_space3.

(** [s.rstrip()] on the reversed string: the bytes of a character come in
    reverse order. *)
Definition lstrip_reversed : string → string :=
  lstrip_by is_space (λ a b, is_space2 b a) (λ a b c, is_space3 c b a).

(** [s.strip()] *)
Definition strip (s : string) : string :=
  String.rev (lstrip_reversed (String.rev (lstrip s))).

(** One character to remove at the head of the string, and the rest. *)
Definition skip_by (sp1 : ascii → bool) (sp2 : ascii → ascii → bool)
    (sp3 : ascii → ascii → ascii → bool) (s : string) : option string :=
  match s with
  | String a s1 =>
      if sp1 a then Some s1 else
      match s1 with
      | String b s2 =>
          if sp2 a b then Some s2 else
          match s2 with
          | String c s3 => if sp3 a b c then Some s3 else None
          | EmptyString => None
          end
      | EmptyString => None
      end
  | EmptyString => None
  end.

(** An ASCII character that is not a blank: it neither is nor starts or
    ends the encoding of a character that [strip] removes. *)
Definition ascii_plain (a : ascii) : bool :=
  (nat_of_ascii a <? 128) && negb (is_space a).

(** [l[a:b]] for non-negative [a] and [b]. *)
Definition slice {A} (a b : nat) (l : list A) : list A := take (b - a) (drop a l).

(** [l[a:b]] for arbitrary integers: a negative bound counts from the end,
    and both bounds are clamped to the list. *)
Definition py_slice {A} (a b : Z) (l : list A) : list A :=
  let len := Z.of_nat (length l) in
  let norm i := if (i <? 0)%Z then Z.max 0 (i + len) else Z.min i len in
  slice (Z.to_nat (norm a)) (Z.to_nat (norm b)) l.

(** Keep the elements whose position is marked in the mask. *)
Fixpoint select {A} (mask : list bool) (l : list A) : list A :=
  match mask, l with
  | b :: mask', x :: l' => if b then x :: select mask' l' else select mask' l'
  | _, _ => []
  end.

(** The cells of column [j], top to bottom. *)
Definition column (df : DataFrame) (j : nat) : list cell :=
  map (λ row, cell_at row j) (rows df).

(** One boolean per column, computed from the cells of the column. *)
Definition col_mask (P : list cell → bool) (df : DataFrame) : list bool :=
  map (λ j, P (column df j)) (seq 0 (ncols df)).

Definition count_true (mask : list bool) : nat := length (filter (λ b, b = true) mask).

(** Keep the columns marked in the mask. *)
Definition select_cols (mask : list bool) (df : DataFrame) : DataFrame :=
  {| ncols := length (select mask (seq 0 (ncols df)));
     rows := map (select mask) (rows df) |}.

(** ** utils.py: the title catalog and the title locator *)

Definition TABLE_TITLES : list string :=
  [ "INITIAL INVESTMENT";
    "CASHFLOW DETAILS";
    "DISCOUNT RATE";
    "WORKING CAPITAL";
    "GROWTH RATES";
    "SALVAGE VALUE";
    "OPERATING CASHFLOWS";
    "BOOK VALUE & DEPRECIATION";
    "Investment Measures" ].

(** A title occurrence [(r, c, title)]. *)
Definition position : Type := nat * nat * string.

Definition pos_row (p : position) : nat := p.1.1.
Definition pos_col (p : position) : nat := p.1.2.
Definition pos_title (p : position) : string := p.2.
Definition pos_cell (p : position) : nat * nat := p.1.

(** Python's order on tuples [(int, int, str)]: lexicographic. *)
Definition pos_le (p q : position) : Prop :=
  pos_row p < pos_row q ∨
  (pos_row p = pos_row q ∧
   (pos_col p < pos_col q ∨
    (pos_col p = pos_col q ∧ String.le (pos_title p) (pos_title q)))).

#[global] Instance pos_le_dec p q : Decision (pos_le p q).
Proof. unfold pos_le. apply _. Defined.

(** The two nested loops of [locate_table_titles], before the sort. *)
Definition scan_titles (df : DataFrame) : list position :=
  let '(nrows, cols) := shape df in
  r ← seq 0 nrows;
  c ← seq 0 cols;
  let cell := strip (str_cell (iat df r c)) in
  if bool_decide (cell ∈ TABLE_TITLES) then [(r, c, cell)] else [].

Definition locate_table_titles (df : DataFrame) : list position :=
  merge_sort pos_le (scan_titles df).

(** ** utils.py: the boundary calculator *)

(** The first loop of [calculate_row_boundaries]: the distinct anchor rows
    in order of first appearance. *)
Definition collect_title_rows (title_positions : list position) : list nat :=
  foldl (λ title_rows p,
           if bool_decide (pos_row p ∈ title_rows) then title_rows
           else title_rows ++ [pos_row p])
        [] title_positions.

(** [l[i + 1] if i + 1 < len(l) else last] *)
Definition next_or (l : list nat) (i : nat) (last : nat) : nat :=
  if bool_decide (i + 1 < length l) then l !!! (i + 1) else last.

Definition calculate_row_boundaries (title_positions : list position)
    (total_rows : nat) : gmap nat nat :=
  let title_rows := merge_sort le (collect_title_rows title_positions) in
  foldl (λ row_boundaries i,
           let this_row := title_rows !!! i in
           let next_row := next_or title_rows i total_rows in
           <[this_row := next_row]> row_boundaries)
        ∅ (seq 0 (length title_rows)).

Definition group_titles_by_row (title_positions : list position)
    : gmap nat (list nat) :=
  foldl (λ row_to_cols p,
           let row_to_cols :=
             if bool_decide (is_Some (row_to_cols !! pos_row p)) then row_to_cols
             else <[pos_row p := []]> row_to_cols in
           alter (λ cols, cols ++ [pos_col p]) (pos_row p) row_to_cols)
        ∅ title_positions.

(** The list of segments built when several titles share a row. *)
Definition build_segments (cols_on_this_row : list nat) (total_cols : nat)
    : list (nat * nat) :=
  map (λ i, (cols_on_this_row !!! i, next_or cols_on_this_row i total_cols))
      (seq 0 (length cols_on_this_row)).

(** [None] is the [KeyError] of [row_to_cols[start_row]]. *)
Definition determine_horizontal_boundaries (start_row start_col : nat)
    (row_to_cols : gmap nat (list nat)) (total_cols : nat) : option (nat * nat) :=
  cols ← row_to_cols !! start_row;
  let cols_on_this_row := merge_sort le cols in
  if bool_decide (1 < length cols_on_this_row) then
    let segments := build_segments cols_on_this_row total_cols in
    match list_find (λ seg, seg.1 ≤ start_col ∧ start_col < seg.2) segments with
    | Some (_, seg) => Some seg
    | None => Some (0, total_cols)
    end
  else Some (0, total_cols).

(** ** utils.py: the table extractor *)

(** [df.iloc[top:bottom, left:right]] *)
Definition iloc (df : DataFrame) (top bottom left right : nat) : DataFrame :=
  {| ncols := length (slice left right (seq 0 (ncols df)));
     rows := map (slice left right) (slice top bottom (rows df)) |}.

(** [block.replace("", pd.NA)], cell by cell *)
Definition replace_empty (c : cell) : cell :=
  match c with
  | Some EmptyString => None
  | _ => c
  end.

(** [isna().all()] over the cells of one row or of one column *)
Definition all_na (cells : list cell) : bool := forallb is_na cells.

(** [block.dropna(how="all", axis=0)] *)
Definition dropna_rows (df : DataFrame) : DataFrame :=
  {| ncols := ncols df; rows := filter (λ r, all_na r = false) (rows df) |}.

(** [block.dropna(how="all", axis=1)] *)
Definition dropna_cols (df : DataFrame) : DataFrame :=
  select_cols (col_mask (λ col, negb (all_na col)) df) df.

Definition extract_table_block (df : DataFrame) (top bottom left right : nat)
    : DataFrame :=
  let block := iloc df top bottom left right in
  let block := {| ncols := ncols block; rows := map (map replace_empty) (rows block) |} in
  let block := dropna_rows block in
  let block := dropna_cols block in
  block.

(** A source rectangle [[top, bottom) × [left, right)], kept as
    [(top, bottom, left, right)]. *)
Definition rect : Type := nat * nat * nat * nat.

Definition in_rect (rc : rect) (r c : nat) : Prop :=
  let '(top, bottom, left_, right_) := rc in
  top ≤ r ∧ r < bottom ∧ left_ ≤ c ∧ c < right_.

(** [d[k] = v] on an insertion-ordered dictionary. *)
Fixpoint dict_set {V} (k : string) (v : V) (d : list (string * V)) : list (string * V) :=
  match d with
  | [] => [(k, v)]
  | (k', v') :: d' => if decide (k' = k) then (k, v) :: d' else (k', v') :: dict_set k v d'
  end.

(** [d[k]] / [d.get(k)] *)
Fixpoint dict_get {V} (k : string) (d : list (string * V)) : option V :=
  match d with
  | [] => None
  | (k', v') :: d' => if decide (k' = k) then Some v' else dict_get k d'
  end.

(** [list(d.keys())] *)
Definition dict_keys {V} (d : list (string * V)) : list string := d.*1.

(** The two marking loops at the end of the body of the main loop. *)
Definition mark_used (already_used : list (list bool)) (top bottom left right : nat)
    : list (list bool) :=
  foldl (λ used rr,
    foldl (λ used cc,
             if bool_decide (rr < length used ∧ cc < length (used !!! 0))
             then <[rr := <[cc := true]> (used !!! rr)]> used
             else used)
          used (seq left (right - left)))
    already_used (seq top (bottom - top)).

(** The state of the main loop of [find_tables_in_spreadsheet].  The field
    [emitted] is a ghost log: one entry per table written to
    [extracted_tables], with its anchor, its name and its source rectangle. *)
Record ft_state : Type := mkFT {
  already_used : list (list bool);
  extracted_tables : list (string * DataFrame);
  title_counts : gmap string nat;
  emitted : list (position * string * rect)
}.

Definition ft_init (nrows cols : nat) : ft_state :=
  {| already_used := replicate nrows (replicate cols false);
     extracted_tables := [];
     title_counts := ∅;
     emitted := [] |}.

(** The name given to an occurrence and the updated counters. *)
Definition resolve_title (title_counts : gmap string nat) (base_title : string)
    : gmap string nat * string :=
  match title_counts !! base_title with
  | Some n =>
      (<[base_title := n + 1]> title_counts,
       base_title +:+ " (" +:+ str_nat (n + 1) +:+ ")")
  | None => (<[base_title := 0]> title_counts, base_title)
  end.

(** One iteration of the main loop.  [None] is an [IndexError] or a
    [KeyError]. *)
Definition ft_step (df : DataFrame) (row_to_cols : gmap nat (list nat))
    (row_boundaries : gmap nat nat) (st : ft_state) (p : position)
    : option ft_state :=
  let '(nrows, cols) := shape df in
  let '(start_row, start_col, base_title) := p in
  used_row ← already_used st !! start_row;
  used ← used_row !! start_col;
  if (used : bool) then Some st
  else
    let '(counts, title) := resolve_title (title_counts st) base_title in
    let top := start_row in
    bottom ← row_boundaries !! start_row;
    '(left_, right_) ← determine_horizontal_boundaries start_row start_col row_to_cols cols;
    let block := extract_table_block df top bottom left_ right_ in
    if bool_decide (2 ≤ (shape block).1 ∧ 2 ≤ (shape block).2) then
      Some {| already_used := mark_used (already_used st) top bottom left_ right_;
              extracted_tables := dict_set title block (extracted_tables st);
              title_counts := counts;
              emitted := emitted st ++ [(p, title, (top, bottom, left_, right_))] |}
    else
      Some {| already_used := already_used st;
              extracted_tables := extracted_tables st;
              title_counts := counts;
              emitted := emitted st |}.

Fixpoint ft_loop (df : DataFrame) (row_to_cols : gmap nat (list nat))
    (row_boundaries : gmap nat nat) (st : ft_state) (ps : list position)
    : option ft_state :=
  match ps with
  | [] => Some st
  | p :: ps' =>
      st' ← ft_step df row_to_cols row_boundaries st p;
      ft_loop df row_to_cols row_boundaries st' ps'
  end.

(** The whole of [find_tables_in_spreadsheet], returning the final loop
    state. *)
Definition find_tables_run (df : DataFrame) : option ft_state :=
  let '(nrows, cols) := shape df in
  let title_positions := locate_table_titles df in
  let row_to_cols := group_titles_by_row title_positions in
  let row_boundaries := calculate_row_boundaries title_positions nrows in
  ft_loop df row_to_cols row_boundaries (ft_init nrows cols) title_positions.

Definition find_tables_in_spreadsheet (df : DataFrame)
    : option (list (string * DataFrame)) :=
  extracted_tables <$> find_tables_run df.

(** ** utils.py: the table cleaner *)

Definition count_na (cells : list cell) : nat :=
  length (filter (λ c, is_na c = true) cells).

(** [isna().mean() <= threshold] over the cells of one row or column: the
    mean of no cells is NaN, which compares false. *)
Definition na_mean_le (cells : list cell) (threshold : Q) : bool :=
  match length cells with
  | 0 => false
  | S _ => Qle_bool (Z.of_nat (count_na cells) # Pos.of_nat (length cells)) threshold
  end.

Definition filter_rows_columns (df : DataFrame)
    (max_empty_row_ratio max_empty_col_ratio : Q) : DataFrame :=
  let df := {| ncols := ncols df;
               rows := filter (λ r, na_mean_le r max_empty_row_ratio = true) (rows df) |} in
  select_cols (col_mask (λ col, na_mean_le col max_empty_col_ratio) df) df.

(** The shape shared by the two scanning loops of [trim_blank_edges]: walk
    the pattern while it is blank, counting the run; once the run exceeds
    the streak the trim point is moved to [point i]. *)
Fixpoint blank_run_scan (point : nat → Z) (max_blank_streak : Z)
    (pattern : list bool) (i : nat) (run : Z) (trim : Z) : Z :=
  match pattern with
  | [] => trim
  | is_blank :: rest =>
      if is_blank then
        let run := (run + 1)%Z in
        let trim := if (max_blank_streak <? run)%Z then point i else trim in
        blank_run_scan point max_blank_streak rest (S i) run trim
      else trim
  end.

(** [start] after the loop over the leading blanks *)
Definition trim_start (pattern : list bool) (max_blank_streak : Z) : Z :=
  blank_run_scan (λ i, Z.of_nat i + 1)%Z max_blank_streak pattern 0 0%Z 0%Z.

(** [end] after the loop over the trailing blanks *)
Definition trim_end (pattern : list bool) (max_blank_streak : Z) : Z :=
  let len := Z.of_nat (length pattern) in
  blank_run_scan (λ i, len - 1 - (Z.of_nat i + 1))%Z max_blank_streak
                 (reverse pattern) 0 0%Z (len - 1)%Z.

(** [data.loc[labels[a:b], :]] *)
Definition loc_rows (a b : Z) (data : DataFrame) : DataFrame :=
  {| ncols := ncols data; rows := py_slice a b (rows data) |}.

(** [data.loc[:, labels[a:b]]] *)
Definition loc_cols (a b : Z) (data : DataFrame) : DataFrame :=
  {| ncols := length (py_slice a b (seq 0 (ncols data)));
     rows := map (py_slice a b) (rows data) |}.

Definition trim_blank_edges (data : DataFrame) (by_rows : bool)
    (max_blank_streak : Z) : DataFrame :=
  let pattern := if by_rows then map all_na (rows data) else col_mask all_na data in
  let start := trim_start pattern max_blank_streak in
  let end_ := trim_end pattern max_blank_streak in
  if by_rows then loc_rows start (end_ + 1) data
  else loc_cols start (end_ + 1) data.

Definition clean_up_table (table : DataFrame)
    (max_empty_row_ratio max_empty_col_ratio : Q) (max_blank_streak : Z) : DataFrame :=
  let df := filter_rows_columns table max_empty_row_ratio max_empty_col_ratio in
  let df := trim_blank_edges df true max_blank_streak in
  let df := trim_blank_edges df false max_blank_streak in
  df.

(** The default arguments of [clean_up_table]. *)
Definition default_ratio : Q := 6 # 10.
Definition default_streak : Z := 1.

Definition convert_table_to_list (table : DataFrame) : list (list string) :=
  map (map str_cell) (rows table).

(** [.fillna("")] *)
Definition fillna_empty (df : DataFrame) : DataFrame :=
  {| ncols := ncols df; rows := map (map (λ c, Some (default "" c))) (rows df) |}.

(** The body of [process_excel_file] after the workbook is decoded:
    segmentation, then cleaning with the default thresholds. *)
Definition process_grid (df : DataFrame) : option (list (string * list (list string))) :=
  raw_tables ← find_tables_in_spreadsheet df;
  Some (foldl (λ final_tables '(title, block),
                 let cleaned := clean_up_table block default_ratio default_ratio default_streak in
                 dict_set title (convert_table_to_list cleaned) final_tables)
              [] raw_tables).

Section Ingestion.

(** [pd.read_excel(bio, header=None, dtype=str, engine="xlrd")], the
    external decoder; [None] when it raises. *)
Variable read_excel : list Byte.byte → option DataFrame.

Definition process_excel_file (excel_bytes : list Byte.byte)
    : option (list (string * list (list string))) :=
  df ← fillna_empty <$> read_excel excel_bytes;
  process_grid df.

(** ** main.py: the table store *)

(** The global [db]: table name to rows of string cells. *)
Definition store : Type := list (string * list (list string)).

Inductive response (A : Type) : Type :=
| Ok (a : A)
| HTTPException (status_code : nat).
Arguments Ok {A} a.
Arguments HTTPException {A} status_code.

Definition lower_ascii (a : ascii) : ascii :=
  let n := nat_of_ascii a in
  if (65 <=? n) && (n <=? 90) then ascii_of_nat (n + 32) else a.

(** [s.lower()] for the letters of ASCII: [A] to [Z] are lowered and every
    other byte is kept.  No character outside ASCII lowers to one of the
    characters of [.xls] or [.xlsx], so the suffix test of [upload_excel]
    is the one of the code for every file name. *)
Fixpoint lower (s : string) : string :=
  match s with
  | EmptyString => EmptyString
  | String a s' => String (lower_ascii a) (lower s')
  end.

(** [s.endswith(suffix)] *)
Definition endswith (s suffix : string) : bool :=
  String.prefix (String.rev suffix) (String.rev s).

(** [db.update(tables)] *)
Definition dict_update {V} (d tables : list (string * V)) : list (string * V) :=
  foldl (λ d '(k, v), dict_set k v d) d tables.

(** [upload_excel]: the response and the store afterwards. *)
Definition upload_excel (filename : string) (data : list Byte.byte) (db : store)
    : response (list string) * store :=
  let fname := lower filename in
  if negb (endswith fname ".xls" || endswith fname ".xlsx") then
    (HTTPException 400, db)
  else
    match process_excel_file data with
    | None => (HTTPException 500, db)
    | Some tables =>
        let db := dict_update [] tables in
        (Ok (dict_keys db), db)
    end.

(** [ensure_uploaded] followed by the body of [list_tables] *)
Definition list_tables (db : store) : response (list string) :=
  match db with
  | [] => HTTPException 400
  | _ => Ok (dict_keys db)
  end.

End Ingestion.

Arguments Ok {A} a.
Arguments HTTPException {A} status_code.

Section RowSum.

(** The builtin [float(cell)]; [None] when it raises [ValueError]. *)
Variable float_of : string → option float.
(** The builtin [round(total, 4)]. *)
Variable round4 : float → float.

(** The summing loop of [row_sum] over [table_data[row_idx][1:]]. *)
Definition sum_cells (row : list string) : float :=
  foldl (λ total cell,
           match float_of cell with
           | Some v => (total + v)%float
           | None => total
           end)
        0%float (drop 1 row).

(** The [sum] field of the response of [row_sum] for the resolved row
    index; [None] when the index is outside the table. *)
Definition row_sum_at (table_data : list (list string)) (row_idx : nat)
    : option float :=
  row ← table_data !! row_idx;
  actual_row_name ← strip <$> row !! 0;
  Some (round4 (sum_cells row)).

End RowSum.

(** ** Models of the builtins [float] and [round]

    Both are exact: the decimal value is converted to the nearest
    binary64 number by one correctly rounded division of integers. *)

(** The binary64 number nearest to [± n / d]. *)
Definition nearest_float (neg : bool) (n : Z) (d : positive) : float :=
  match n with
  | Zpos p => SF2Prim (SFdiv prec emax (S754_finite neg p 0) (S754_finite false d 0))
  | _ => if neg then neg_zero else zero
  end.

Definition digit_of (a : ascii) : option Z :=
  let n := nat_of_ascii a in
  if (48 <=? n) && (n <=? 57) then Some (Z.of_nat (n - 48)) else None.

(** A run of digits, single underscores allowed between digits: the
    digits are appended to [acc] and counted. *)
Fixpoint digitpart_go (acc : Z) (cnt : Z) (s : string) : Z * Z * string :=
  match s with
  | String a s' =>
      match digit_of a with
      | Some d => digitpart_go (10 * acc + d) (cnt + 1) s'
      | None =>
          if Ascii.eqb a "_" then
            match s' with
            | String b s'' =>
                match digit_of b with
                | Some d => digitpart_go (10 * acc + d) (cnt + 1) s''
                | None => (acc, cnt, s)
                end
            | EmptyString => (acc, cnt, s)
            end
          else (acc, cnt, s)
      end
  | EmptyString => (acc, cnt, s)
  end.

Definition digitpart (acc : Z) (s : string) : Z * Z * string :=
  match s with
  | String a _ =>
      match digit_of a with
      | Some _ => digitpart_go acc 0 s
      | None => (acc, 0%Z, s)
      end
  | EmptyString => (acc, 0%Z, s)
  end.

Definition take_sign (s : string) : bool * string :=
  match s with
  | String "-" s' => (true, s')
  | String "+" s' => (false, s')
  | _ => (false, s)
  end.

Definition exponent_of (s : string) : option Z :=
  match s with
  | EmptyString => Some 0%Z
  | String a s' =>
      if Ascii.eqb a "e" || Ascii.eqb a "E" then
        let '(neg, s'') := take_sign s' in
        match digitpart 0 s'' with
        | (n, cnt, EmptyString) =>
            if (cnt =? 0)%Z then None else Some (if neg then - n else n)%Z
        | _ => None
        end
      else None
  end.

(** [[digitpart] "." digitpart | digitpart ["."]] followed by an optional
    exponent: the digits as an integer and the power of ten. *)
Definition floatnumber (s : string) : option (Z * Z) :=
  let '(n1, c1, r1) := digitpart 0 s in
  let '(n2, c2, r2) :=
    match r1 with
    | String "." r => digitpart n1 r
    | _ => (n1, 0%Z, r1)
    end in
  if (c1 =? 0)%Z && (c2 =? 0)%Z then None
  else ex ← exponent_of r2; Some (n2, (ex - c2)%Z).

(** The blanks that [float] skips at both ends: tab to carriage return
    and the space, and the blanks outside ASCII, which it first replaces
    by spaces.  The separators U+001C to U+001F are not among them. *)
Definition is_float_space (a : ascii) : bool :=
  let n := nat_of_ascii a in
  ((9 <=? n) && (n <=? 13)) || (n =? 32).

Definition float_strip (s : string) : string :=
  String.rev
    (lstrip_by is_float_space (λ a b, is_space2 b a) (λ a b c, is_space3 c b a)
       (String.rev (lstrip_by is_float_space is_space2 is_space3 s))).

(** [float(s)]; [None] is [ValueError].  Decimal digits outside ASCII,
    which [float] also accepts, are not covered. *)
Definition py_float (s : string) : option float :=
  let '(neg, body) := take_sign (float_strip s) in
  let name := lower body in
  if bool_decide (name = "inf" ∨ name = "infinity") then
    Some (if neg then neg_infinity else infinity)
  else if bool_decide (name = "nan") then Some nan
  else
    '(n, ex) ← floatnumber body;
    Some (if (0 <=? ex)%Z then nearest_float neg (n * 10 ^ ex) 1
          else nearest_float neg n (Z.to_pos (10 ^ (- ex)))).

Definition round_half_even (num den : Z) : Z :=
  let q := (num / den)%Z in
  match (2 * (num mod den) ?= den)%Z with
  | Lt => q
  | Gt => (q + 1)%Z
  | Eq => if Z.even q then q else (q + 1)%Z
  end.

(** [round(x, 4)]: the exact value of [x] is rounded to a multiple of
    [10 ** -4], ties to even, and that decimal is converted back. *)
Definition py_round4 (x : float) : float :=
  match Prim2SF x with
  | S754_finite s m e =>
      let q := if (0 <=? e)%Z then (Z.pos m * 2 ^ e * 10000)%Z
               else round_half_even (Z.pos m * 10000) (2 ^ (- e)) in
      nearest_float s q 10000
  | _ => x
  end.

(** ** Notions used to state the properties *)

(** The length of the maximal leading run of blanks of a pattern. *)
Fixpoint blank_run (pattern : list bool) : nat :=
  match pattern with
  | true :: rest => S (blank_run rest)
  | _ => 0
  end.

(** The first kept position and the position after the last kept one, when
    a blank run at an edge is cut whole once it is longer than the streak
    and kept whole otherwise. *)
Definition trim_bounds (pattern : list bool) (max_blank_streak : Z) : nat * nat :=
  let lead := blank_run pattern in
  let trail := blank_run (reverse pattern) in
  (if (max_blank_streak <? Z.of_nat lead)%Z then lead else 0,
   if (max_blank_streak <? Z.of_nat trail)%Z then length pattern - trail
   else length pattern).

(** [b] is the smallest element of [l] above [x], or [last] when [l] has no
    element above [x]. *)
Definition is_next_above (l : list nat) (x b last : nat) : Prop :=
  (b ∈ l ∧ x < b ∧ ∀ y, y ∈ l → x < y → b ≤ y) ∨
  (b = last ∧ ∀ y, y ∈ l → y ≤ x).

(** The columns of the occurrences on row [r], in list order. *)
Definition cols_on_row (title_positions : list position) (r : nat) : list nat :=
  pos_col <$> filter (λ p, pos_row p = r) title_positions.

(** The number of occurrences of a base title in a list of occurrences. *)
Definition count_title (base_title : string) (ps : list position) : nat :=
  length (filter (λ p, pos_title p = base_title) ps).

(** The number of occurrences of the title of [p] that come before [p]. *)
Fixpoint occ_before (ps : list position) (p : position) : nat :=
  match ps with
  | [] => 0
  | q :: ps' =>
      if decide (q = p) then 0
      else (if decide (pos_title q = pos_title p) then 1 else 0) + occ_before ps' p
  end.

(** The name of the [k]-th occurrence (counted from 0) of a base title. *)
Definition name_of (base_title : string) (k : nat) : string :=
  match k with
  | 0 => base_title
  | S _ => base_title +:+ " (" +:+ str_nat k +:+ ")"
  end.

(** The source rectangle computed for an anchor, as the loop body of
    [find_tables_in_spreadsheet] computes it. *)
Definition rect_of (df : DataFrame) (p : position) : option rect :=
  let '(nrows, cols) := shape df in
  let title_positions := locate_table_titles df in
  bottom ← calculate_row_boundaries title_positions nrows !! pos_row p;
  '(left_, right_) ← determine_horizontal_boundaries (pos_row p) (pos_col p)
                        (group_titles_by_row title_positions) cols;
  Some (pos_row p, bottom, left_, right_).

Definition block_of (df : DataFrame) (rc : rect) : DataFrame :=
  let '(top, bottom, left_, right_) := rc in
  extract_table_block df top bottom left_ right_.

(** The size test of the extractor. *)
Definition keepable (block : DataFrame) : Prop :=
  2 ≤ (shape block).1 ∧ 2 ≤ (shape block).2.

(** The anchor's block passes the size test. *)
Definition keepable_at (df : DataFrame) (p : position) : Prop :=
  ∃ rc, rect_of df p = Some rc ∧ keepable (block_of df rc).

Definition rects_disjoint (rc1 rc2 : rect) : Prop :=
  ∀ r c, ¬ (in_rect rc1 r c ∧ in_rect rc2 r c).

(** (row, col) comes strictly before in row-major order *)
Definition cell_lt (a b : nat * nat) : Prop :=
  a.1 < b.1 ∨ (a.1 = b.1 ∧ a.2 < b.2).

(** [start] and [stop] cut each edge run whole when it is longer than the
    streak, and keep it whole otherwise. *)
Definition cuts_whole_runs (pattern : list bool) (t : Z) (start stop : nat) : Prop :=
  let lead := blank_run pattern in
  let trail := blank_run (reverse pattern) in
  ((Z.of_nat lead ≤ t)%Z → start = 0) ∧
  ((t < Z.of_nat lead)%Z → start = lead) ∧
  ((Z.of_nat trail ≤ t)%Z → stop = length pattern) ∧
  ((t < Z.of_nat trail)%Z → stop = length pattern - trail).

(** The columns of a block, left to right. *)
Definition columns_of (df : DataFrame) : list (list cell) :=
  map (column df) (seq 0 (ncols df)).

(** Neither edge run of the pattern is longer than the streak. *)
Definition edge_runs_within (pattern : list bool) (t : Z) : Prop :=
  (Z.of_nat (blank_run pattern) ≤ t)%Z ∧
  (Z.of_nat (blank_run (reverse pattern)) ≤ t)%Z.

(** A block that is already clean: the blank fraction of every row and of
    every column is at most its threshold, and no leading or trailing run
    of fully blank rows or columns is longer than the streak. *)
Definition already_clean (df : DataFrame) (max_empty_row_ratio max_empty_col_ratio : Q)
    (max_blank_streak : Z) : Prop :=
  Forall (λ r, na_mean_le r max_empty_row_ratio = true) (rows df) ∧
  Forall (λ c, na_mean_le c max_empty_col_ratio = true) (columns_of df) ∧
  edge_runs_within (map all_na (rows df)) max_blank_streak ∧
  edge_runs_within (col_mask all_na df) max_blank_streak.

(** The columns of a list of rows, given the number of columns. *)
Definition cols_of (n : nat) (rs : list (list cell)) : list (list cell) :=
  map (λ j, map (λ r, cell_at r j) rs) (seq 0 n).

(** ** Blocks and grids used as examples *)

(** A dense 2 × 2 block. *)
Definition block_dense : DataFrame :=
  mkDF 2 [[Some "DISCOUNT RATE"; Some "x"]; [Some "y"; Some "z"]].

(** A title row whose two values sit in columns that are blank in the two
    data rows below it. *)
Definition block_title_over_gap : DataFrame :=
  mkDF 4 [[Some "DISCOUNT RATE"; Some "x"; None; None];
          [None; None; Some "p"; Some "q"];
          [None; None; Some "r"; Some "s"]].

(** Two such rows above four data rows. *)
Definition block_two_rows_over_gap : DataFrame :=
  mkDF 4 [[Some "DISCOUNT RATE"; Some "x"; None; None];
          [Some "y"; Some "z"; None; None];
          [None; None; Some "p"; Some "q"];
          [None; None; Some "p"; Some "q"];
          [None; None; Some "p"; Some "q"];
          [None; None; Some "p"; Some "q"]].

(** Occurrences at distinct cells of a grid of the given size. *)
Definition anchors_ok (tp : list position) (nrows cols : nat) : Prop :=
  NoDup (pos_cell <$> tp) ∧
  ∀ p, p ∈ tp → pos_row p < nrows ∧ pos_col p < cols.


Definition scenario_two_titles : list position :=
  [(3, 0, "DISCOUNT RATE"); (3, 5, "GROWTH RATES"); (9, 0, "SALVAGE VALUE")].

#[global] Instance keepable_dec block : Decision (keepable block).
Proof. unfold keepable. apply _. Defined.

(** The cell [(r, c)] is marked in the mask. *)
Definition is_used (used : list (list bool)) (r c : nat) : Prop :=
  ∃ row, used !! r = Some row ∧ row !! c = Some true.

(** The mask [used'] has the dimensions of [used], and marks only cells
    that [used] marks or that satisfy [P]. *)
Definition mask_grows (P : nat → nat → Prop) (used used' : list (list bool)) : Prop :=
  length used' = length used ∧
  (∀ n, Forall (λ row, length row = n) used → Forall (λ row, length row = n) used') ∧
  (∀ r c, is_used used' r c → is_used used r c ∨ P r c).

(** The log entry that an anchor contributes: none when its block fails the
    size test, and else its name, numbered by the occurrences of its title
    before it, and its source rectangle. *)
Definition log_entry (df : DataFrame) (p : position)
    : option (position * string * rect) :=
  rc ← rect_of df p;
  if bool_decide (keepable (block_of df rc))
  then Some (p, name_of (pos_title p) (occ_before (locate_table_titles df) p), rc)
  else None.

(** The dictionary written by the entries of a log, in order. *)
Definition tables_of_log (df : DataFrame) (log : list (position * string * rect))
    : list (string * DataFrame) :=
  foldl (λ d e, dict_set e.1.2 (block_of df e.2) d) [] log.

(** The invariant of the main loop of [find_tables_in_spreadsheet] after
    the occurrences [done] have been processed. *)
Definition ft_inv (df : DataFrame) (done : list position) (st : ft_state) : Prop :=
  length (already_used st) = length (rows df) ∧
  Forall (λ row, length row = ncols df) (already_used st) ∧
  (∀ r c, is_used (already_used st) r c →
          ∃ q rc, q ∈ done ∧ rect_of df q = Some rc ∧ in_rect rc r c) ∧
  emitted st = omap (log_entry df) done ∧
  (∀ base_title,
     title_counts st !! base_title =
       match count_title base_title done with
       | 0 => None
       | S k => Some k
       end) ∧
  extracted_tables st = tables_of_log df (emitted st).

(** A decoded sheet with a title alone on its row above one full data
    row. *)
Definition sheet_sparse_title : DataFrame :=
  mkDF 5 [[Some "DISCOUNT RATE"; None; None; None; None];
          [Some "a"; Some "b"; Some "c"; Some "d"; Some "e"]].

(** A decoded sheet with three anchors: two share row 0, and the title of
    the first occurs again on row 2. *)
Definition sheet_three_anchors : DataFrame :=
  mkDF 4 [[Some "DISCOUNT RATE"; Some "1"; Some "GROWTH RATES"; Some "2"];
          [Some "a"; Some "b"; Some "c"; Some "d"];
          [Some "DISCOUNT RATE"; Some "3"; None; None];
          [Some "e"; Some "f"; None; None]].

(** Row-major order on the anchors. *)
Definition anchor_lt (p q : position) : Prop := cell_lt (pos_cell p) (pos_cell q).

(** A decoded sheet where one title occurs three times, each time above a
    data row. *)
Definition sheet_thrice : DataFrame :=
  mkDF 2 [[Some "DISCOUNT RATE"; Some "1"];
          [Some "a"; Some "b"];
          [Some "DISCOUNT RATE"; Some "2"];
          [Some "c"; Some "d"];
          [Some "DISCOUNT RATE"; Some "3"];
          [Some "e"; Some "f"]].

(** A decoded sheet where the first occurrence of a title has no data row
    before the next anchor row. *)
Definition sheet_first_discarded : DataFrame :=
  mkDF 2 [[Some "DISCOUNT RATE"; Some ""];
          [Some "DISCOUNT RATE"; Some "2"];
          [Some "c"; Some "d"]].

(** A decoded sheet without any catalog title. *)
Definition sheet_no_title : DataFrame :=
  mkDF 2 [[Some "Revenue"; Some "100"]; [Some "Cost"; None]].

(** The rows [out] come from the rows [src] by dropping rows and dropping
    cells inside the rows that are left, order kept. *)
Definition rows_shrunk (out src : list (list cell)) : Prop :=
  ∃ kept, kept `sublist_of` src ∧ Forall2 (λ o r, o `sublist_of` r) out kept.

(** ** main.py: name resolution and the query endpoints *)

(** [needle in haystack] on strings *)
Fixpoint str_contains (haystack needle : string) : bool :=
  String.prefix needle haystack ||
  match haystack with
  | EmptyString => false
  | String _ rest => str_contains rest needle
  end.




Section Queries.

(** [urllib.parse.unquote]; [None] when it raises. *)
Variable unquote : string → option string.
(** [str.lower] *)
Variable str_lower : string → string.
(** The builtins [float] and [round(_, 4)], as for [sum_cells]. *)
Variable float_of : string → option float.
Variable round4 : float → float.

Definition clean_parameter (param : string) : string :=
  match unquote param with
  | Some decoded =>
      if bool_decide (decoded ≠ param) then strip decoded else strip param
  | None => strip param
  end.

(** One of the three ways in which [find_table_name] matches a stored
    name against the cleaned request. *)
Definition lower_equal (a b : string) : Prop := str_lower a = str_lower b.

Definition partial_match (a b : string) : Prop :=
  str_contains (str_lower a) (str_lower b) = true ∨
  str_contains (str_lower b) (str_lower a) = true.

#[global] Instance lower_equal_dec a b : Decision (lower_equal a b).
Proof. unfold lower_equal. apply _. Defined.

#[global] Instance partial_match_dec a b : Decision (partial_match a b).
Proof. unfold partial_match. apply _. Defined.

Definition find_table_name (db : store) (requested_name : string) : response string :=
  let cleaned_name := clean_parameter requested_name in
  if bool_decide (cleaned_name ∈ dict_keys db) then Ok cleaned_name
  else
    match list_find (λ table_name, lower_equal table_name cleaned_name)
                    (dict_keys db) with
    | Some (_, table_name) => Ok table_name
    | None =>
        match list_find (λ table_name, partial_match table_name cleaned_name)
                        (dict_keys db) with
        | Some (_, table_name) => Ok table_name
        | None => HTTPException 404
        end
    end.

(** [row and len(row) > 0] and a test on [str(row[0]).strip()] *)
Definition first_cell_is (test : string → Prop) (row : list string) : Prop :=
  match row with
  | [] => False
  | c :: _ => test (strip c)
  end.

#[global] Instance first_cell_is_dec test `{!∀ s, Decision (test s)} row :
  Decision (first_cell_is test row).
Proof. destruct row; simpl; apply _. Defined.

Definition find_row_name (table_data : list (list string))
    (requested_row_name : string) : response nat :=
  let cleaned_row_name := clean_parameter requested_row_name in
  match list_find (first_cell_is (λ first_cell, first_cell = cleaned_row_name))
                  table_data with
  | Some (i, _) => Ok i
  | None =>
      match list_find (first_cell_is (λ first_cell,
                                        lower_equal first_cell cleaned_row_name))
                      table_data with
      | Some (i, _) => Ok i
      | None =>
          match list_find (first_cell_is (λ first_cell,
                                            partial_match first_cell cleaned_row_name))
                          table_data with
          | Some (i, _) => Ok i
          | None => HTTPException 404
          end
      end
  end.

(** A stored name matches the cleaned request in one of the three ways. *)
Definition table_matches (cleaned_name table_name : string) : Prop :=
  table_name = cleaned_name ∨ lower_equal table_name cleaned_name ∨
  partial_match table_name cleaned_name.

(** A row is not empty and its stripped first cell matches the cleaned
    request in one of the three ways. *)
Definition row_matches (cleaned_row_name : string) (row : list string) : Prop :=
  first_cell_is (λ first_cell, first_cell = cleaned_row_name ∨
                               lower_equal first_cell cleaned_row_name ∨
                               partial_match first_cell cleaned_row_name) row.

(** The endpoints answer [Some (Ok _)] or [Some (HTTPException _)];
    [None] stands for an exception that is not an [HTTPException]
    ([KeyError], [IndexError]). *)


(** The name listed for row [i] by [get_table_details]. *)
Definition listed_row_name (i : nat) (row : list string) : string :=
  match row with
  | [] => "<empty_row_" +:+ str_nat i +:+ ">"
  | c :: _ =>
      if bool_decide (c = "") || bool_decide (strip c = "")
      then "<empty_cell_" +:+ str_nat i +:+ ">"
      else strip c
  end.



End Queries.

(** Percent-decoding of the escapes [%XX], the other characters kept.  It
    is [urllib.parse.unquote] on every string whose decoded bytes are
    valid UTF-8, in particular on strings without a percent sign. *)
Definition hex_digit (a : ascii) : option nat :=
  let n := nat_of_ascii a in
  if (48 <=? n) && (n <=? 57) then Some (n - 48)
  else if (65 <=? n) && (n <=? 70) then Some (n - 55)
  else if (97 <=? n) && (n <=? 102) then Some (n - 87)
  else None.

Fixpoint unquote_bytes (s : string) : string :=
  match s with
  | EmptyString => EmptyString
  | String c s' =>
      let keep := String c (unquote_bytes s') in
      if Ascii.eqb c "%" then
        match s' with
        | String h (String l rest) =>
            match hex_digit h, hex_digit l with
            | Some a, Some b => String (ascii_of_nat (16 * a + b)) (unquote_bytes rest)
            | _, _ => keep
            end
        | _ => keep
        end
      else keep
  end.

Definition py_unquote (s : string) : option string := Some (unquote_bytes s).

(** A store with three tables. *)
Definition store_three : store :=
  [("DISCOUNT RATE (1)", [["DISCOUNT RATE"; "7"]; ["Year 1"; "0.5"]]);
   ("DISCOUNT RATE", [["DISCOUNT RATE"; "1"]; ["Revenue"; "100"; "abc"; "50.5"];
                      ["revenue"; "2"]; [""; "3"]]);
   ("Growth Rates", [])].

(** A decoded sheet where the first two occurrences of a title have no
    data row before the next anchor row. *)
Definition sheet_two_discarded : DataFrame :=
  mkDF 2 [[Some "DISCOUNT RATE"; Some ""];
          [Some "DISCOUNT RATE"; Some ""];
          [Some "DISCOUNT RATE"; Some "2"];
          [Some "c"; Some "d"]].

(** A decoded sheet whose title cell starts with a no-break space
    (U+00A0) and ends with a space. *)
Definition sheet_padded_title : DataFrame :=
  mkDF 2 [[Some (String (ascii_of_nat 194) (String (ascii_of_nat 160) "DISCOUNT RATE "));
           Some "1"];
          [Some "a"; Some "b"]].

(** * Properties *)

(** ** Slices *)

Lemma py_slice_nonneg {A} (a b : nat) (l : list A) :
  py_slice (Z.of_nat a) (Z.of_nat b) l = slice a b l.
Proof.
  unfold py_slice, slice.
  destruct (Z.ltb_spec (Z.of_nat a) 0); [lia|].
  destruct (Z.ltb_spec (Z.of_nat b) 0); [lia|].
  replace (Z.to_nat (Z.of_nat a `min` Z.of_nat (length l))) with (a `min` length l) by lia.
  replace (Z.to_nat (Z.of_nat b `min` Z.of_nat (length l))) with (b `min` length l) by lia.
  destruct (decide (a ≤ length l)) as [Ha|Ha].
  - rewrite (Nat.min_l a) by lia.
    destruct (decide (b ≤ length l)) as [Hb|Hb].
    + rewrite (Nat.min_l b) by lia. done.
    + rewrite (Nat.min_r b) by lia.
      rewrite !take_ge; [done | rewrite length_drop; lia ..].
  - rewrite (Nat.min_r a) by lia. rewrite !drop_ge by lia. by rewrite !take_nil.
Qed.

Lemma slice_all {A} (n : nat) (l : list A) : length l ≤ n → slice 0 n l = l.
Proof.
  intros Hn. unfold slice. rewrite drop_0, Nat.sub_0_r. by apply take_ge.
Qed.

Lemma length_slice {A} (a b : nat) (l : list A) :
  length (slice a b l) = Nat.min (b - a) (length l - a).
Proof. unfold slice. by rewrite length_take, length_drop. Qed.

Lemma slice_lookup {A} (a b i : nat) (l : list A) :
  slice a b l !! i = if bool_decide (i < b - a) then l !! (a + i) else None.
Proof.
  unfold slice. case_bool_decide.
  - by rewrite lookup_take_lt, lookup_drop.
  - rewrite lookup_take_ge; [done | lia].
Qed.

(** ** The scanning loops of [trim_blank_edges] *)

Lemma blank_run_le (pattern : list bool) : blank_run pattern ≤ length pattern.
Proof. induction pattern as [|[] rest IH]; simpl; lia. Qed.

Lemma blank_run_lookup (pattern : list bool) (i : nat) :
  i < blank_run pattern → pattern !! i = Some true.
Proof.
  revert i. induction pattern as [|[] rest IH]; intros [|i] Hi; simpl in *;
    try lia; [done|]. apply IH. lia.
Qed.

Lemma blank_run_0 (pattern : list bool) :
  Forall (λ b, b = false) pattern → blank_run pattern = 0.
Proof. by intros [|? ? ->]. Qed.

Lemma blank_run_scan_spec point t pattern i run trim :
  blank_run_scan point t pattern i run trim =
    if bool_decide (0 < blank_run pattern ∧ (t < run + Z.of_nat (blank_run pattern))%Z)
    then point (i + blank_run pattern - 1) else trim.
Proof.
  revert i run trim. induction pattern as [|b rest IH]; intros i run trim;
    cbn [blank_run_scan blank_run].
  - case_bool_decide; [lia | done].
  - destruct b.
    + rewrite IH. destruct (Z.ltb_spec t (run + 1));
        repeat case_bool_decide; try lia; try done; f_equal; lia.
    + case_bool_decide; [lia | done].
Qed.

Lemma trim_start_spec (pattern : list bool) (t : Z) :
  trim_start pattern t = Z.of_nat (trim_bounds pattern t).1.
Proof.
  unfold trim_start, trim_bounds. rewrite blank_run_scan_spec. simpl.
  destruct (Z.ltb_spec t (Z.of_nat (blank_run pattern)));
    case_bool_decide; lia.
Qed.

Lemma trim_end_spec (pattern : list bool) (t : Z) :
  (trim_end pattern t + 1)%Z = Z.of_nat (trim_bounds pattern t).2.
Proof.
  unfold trim_end, trim_bounds. rewrite blank_run_scan_spec. simpl.
  pose proof (blank_run_le (reverse pattern)) as Hle.
  rewrite length_reverse in Hle.
  destruct (Z.ltb_spec t (Z.of_nat (blank_run (reverse pattern))));
    case_bool_decide; lia.
Qed.

Lemma trim_bounds_le (pattern : list bool) (t : Z) :
  (trim_bounds pattern t).1 ≤ length pattern ∧
  (trim_bounds pattern t).2 ≤ length pattern.
Proof.
  unfold trim_bounds. simpl. pose proof (blank_run_le pattern).
  split; case_match; lia.
Qed.

Lemma length_col_mask P df : length (col_mask P df) = ncols df.
Proof. unfold col_mask. by rewrite length_map, length_seq. Qed.

Lemma trim_blank_edges_rows (data : DataFrame) (t : Z) :
  let b := trim_bounds (map all_na (rows data)) t in
  trim_blank_edges data true t =
    {| ncols := ncols data; rows := slice b.1 b.2 (rows data) |}.
Proof.
  intros b. unfold trim_blank_edges, loc_rows.
  rewrite trim_start_spec, trim_end_spec. fold b.
  by rewrite py_slice_nonneg.
Qed.

Lemma trim_blank_edges_cols (data : DataFrame) (t : Z) :
  let b := trim_bounds (col_mask all_na data) t in
  trim_blank_edges data false t =
    {| ncols := length (slice b.1 b.2 (seq 0 (ncols data)));
       rows := map (slice b.1 b.2) (rows data) |}.
Proof.
  intros b. unfold trim_blank_edges, loc_cols.
  rewrite trim_start_spec, trim_end_spec. fold b.
  rewrite py_slice_nonneg. f_equal.
  apply map_ext. intros r. apply py_slice_nonneg.
Qed.

Lemma trim_bounds_cuts (pattern : list bool) (t : Z) :
  cuts_whole_runs pattern t (trim_bounds pattern t).1 (trim_bounds pattern t).2.
Proof.
  unfold cuts_whole_runs, trim_bounds. simpl.
  destruct (Z.ltb_spec t (Z.of_nat (blank_run pattern)));
    destruct (Z.ltb_spec t (Z.of_nat (blank_run (reverse pattern)))); lia.
Qed.

(** C2, as amended: for every block and every tolerance [t], on the row
    axis and on the column axis alike, a leading (trailing) run of fully
    blank rows of length at most [t] is kept whole, and a run longer than
    [t] is cut whole: the kept rows are those from [start] up to [stop],
    where [start] is the length of the leading run and [stop] is the
    length of the axis minus the trailing run.  No blank row of a run
    longer than [t] survives. *)
Theorem trim_blank_edges_cuts_whole_runs (data : DataFrame) (t : Z) :
  (∃ start stop,
     cuts_whole_runs (map all_na (rows data)) t start stop ∧
     trim_blank_edges data true t =
       {| ncols := ncols data; rows := slice start stop (rows data) |}) ∧
  (∃ start stop,
     cuts_whole_runs (col_mask all_na data) t start stop ∧
     trim_blank_edges data false t =
       {| ncols := length (slice start stop (seq 0 (ncols data)));
          rows := map (slice start stop) (rows data) |}).
Proof.
  split.
  - eexists _, _. split; [apply trim_bounds_cuts | apply trim_blank_edges_rows].
  - eexists _, _. split; [apply trim_bounds_cuts | apply trim_blank_edges_cols].
Qed.

(** C2, as stated, fails: with tolerance 1, a leading run of two blank
    rows is longer than the tolerance, and no blank row of it is kept,
    where the claim keeps [min 2 1] of them. *)
Lemma trim_long_run_keeps_no_blank_row :
  let data := mkDF 1 [[None]; [None]; [Some "a"]] in
  let trimmed := trim_blank_edges data true 1 in
  blank_run (map all_na (rows data)) = 2 ∧
  rows trimmed = [[Some "a"]] ∧
  blank_run (map all_na (rows trimmed)) ≠ Nat.min 2 1.
Proof. vm_compute. repeat split; discriminate. Qed.

(** ** The store under a failed upload *)

(** C6: when processing the uploaded bytes raises, [upload_excel] answers
    with an error and the store is exactly the store before the upload, so
    every table of it is still listed and still read with its contents. *)
Theorem upload_failure_keeps_store
    (read_excel : list Byte.byte → option DataFrame)
    (filename : string) (data : list Byte.byte) (db : store) :
  process_excel_file read_excel data = None →
  let out := upload_excel read_excel filename data db in
  (∃ status, out.1 = HTTPException status) ∧
  out.2 = db ∧
  list_tables out.2 = list_tables db ∧
  ∀ name, dict_get name out.2 = dict_get name db.
Proof.
  intros Hfail out. subst out. unfold upload_excel. rewrite Hfail.
  destruct (negb _); simpl; eauto.
Qed.

Lemma upload_failure_keeps_store_witness :
  let db : store := [("DISCOUNT RATE", [["DISCOUNT RATE"; "x"]; ["y"; "z"]])] in
  let out := upload_excel (λ _, None) "book.xls" [] db in
  (∃ status, out.1 = HTTPException status) ∧
  out.2 = db ∧
  list_tables out.2 = list_tables db ∧
  ∀ name, dict_get name out.2 = dict_get name db.
Proof.
  exact (upload_failure_keeps_store (λ _, None) "book.xls" []
           [("DISCOUNT RATE", [["DISCOUNT RATE"; "x"]; ["y"; "z"]])] eq_refl).
Defined.

(** ** Selecting columns *)

Lemma col_mask_columns P df : col_mask P df = map P (columns_of df).
Proof. unfold col_mask, columns_of. by rewrite map_map. Qed.

Lemma length_columns_of df : length (columns_of df) = ncols df.
Proof. unfold columns_of. by rewrite length_map, length_seq. Qed.

Lemma length_select {A} (mask : list bool) (l : list A) :
  length l = length mask → length (select mask l) = count_true mask.
Proof.
  unfold count_true. revert l.
  induction mask as [|b mask IH]; intros [|x l] Hl; simplify_eq/=; [done|].
  destruct b.
  - rewrite filter_cons_True by done. simpl. by rewrite IH.
  - rewrite filter_cons_False by done. by rewrite IH.
Qed.

Lemma select_all {A} (mask : list bool) (l : list A) :
  Forall (λ b, b = true) mask → length l = length mask → select mask l = l.
Proof.
  intros Hall. revert l. induction Hall as [|b mask -> _ IH];
    intros [|x l] Hl; simplify_eq/=; [done|]. by rewrite IH.
Qed.

Lemma select_map {A B} (f : A → B) (mask : list bool) (l : list A) :
  select mask (map f l) = map f (select mask l).
Proof.
  revert l. induction mask as [|[] mask IH]; intros [|x l]; simpl;
    by rewrite ?IH.
Qed.

Lemma select_self_Forall {A} (P : A → bool) (l : list A) :
  Forall (λ x, P x = true) (select (map P l) l).
Proof.
  induction l as [|x l IH]; simpl; [done|].
  destruct (P x) eqn:HP; [by constructor | done].
Qed.

Lemma wf_select_cols mask df :
  wf_df df → length mask = ncols df → wf_df (select_cols mask df).
Proof.
  intros Hwf Hlen. unfold wf_df, select_cols. simpl.
  rewrite Forall_fmap. eapply Forall_impl; [exact Hwf|]. simpl.
  intros r Hr. rewrite !length_select; [done | by rewrite length_seq | congruence].
Qed.

Lemma cols_of_S (n : nat) (rs : list (list cell)) :
  cols_of (S n) rs = map (λ r, cell_at r 0) rs :: cols_of n (map (drop 1) rs).
Proof.
  unfold cols_of. simpl. f_equal. rewrite <- seq_shift, map_map.
  apply map_ext. intros j. rewrite map_map. apply map_ext. intros r.
  unfold cell_at. by rewrite lookup_drop.
Qed.

Lemma cols_of_select (mask : list bool) (rs : list (list cell)) :
  Forall (λ r, length r = length mask) rs →
  cols_of (count_true mask) (map (select mask) rs) = select mask (cols_of (length mask) rs).
Proof.
  revert rs. induction mask as [|b mask IH]; intros rs Hrs.
  - done.
  - cbn [length]. rewrite cols_of_S. cbn [select].
    assert (Forall (λ r, length r = length mask) (map (drop 1) rs)) as Hrs'.
    { rewrite Forall_fmap. eapply Forall_impl; [exact Hrs|]. simpl.
      intros r Hr. rewrite length_drop. lia. }
    specialize (IH _ Hrs'). rewrite <- IH. unfold count_true.
    destruct b.
    + rewrite filter_cons_True by done. cbn [length]. rewrite cols_of_S. f_equal.
      * rewrite map_map. apply Forall_fmap_ext. eapply Forall_impl; [exact Hrs|].
        intros [|x r] Hr; simplify_eq/=. done.
      * f_equal. rewrite !map_map. apply Forall_fmap_ext.
        eapply Forall_impl; [exact Hrs|]. intros [|x r] Hr; simplify_eq/=.
        by rewrite drop_0.
    + rewrite filter_cons_False by done. f_equal. rewrite !map_map.
      apply Forall_fmap_ext. eapply Forall_impl; [exact Hrs|].
      intros [|x r] Hr; simplify_eq/=. by rewrite drop_0.
Qed.

Lemma columns_of_select_cols mask df :
  wf_df df → length mask = ncols df →
  columns_of (select_cols mask df) = select mask (columns_of df).
Proof.
  intros Hwf Hlen. unfold columns_of, column, select_cols. simpl.
  rewrite length_select by (by rewrite length_seq).
  change (cols_of (count_true mask) (map (select mask) (rows df)) =
          select mask (cols_of (ncols df) (rows df))).
  rewrite <- Hlen. apply cols_of_select.
  eapply Forall_impl; [exact Hwf|]. simpl. intros; congruence.
Qed.

(** ** The sparsity filter *)

Lemma filter_all {A} (P : A → Prop) `{!∀ x, Decision (P x)} (l : list A) :
  Forall P l → filter P l = l.
Proof.
  induction 1 as [|x l Hx _ IH]; [done|].
  by rewrite filter_cons_True, IH.
Qed.

Lemma wf_filter_rows (P : list cell → Prop) `{!∀ x, Decision (P x)} df :
  wf_df df → wf_df {| ncols := ncols df; rows := filter P (rows df) |}.
Proof.
  unfold wf_df. simpl. rewrite !Forall_forall. intros Hwf r Hr.
  apply list_elem_of_filter in Hr as [_ Hr]. by apply Hwf.
Qed.

Lemma wf_filter_rows_columns df rthr cthr :
  wf_df df → wf_df (filter_rows_columns df rthr cthr).
Proof.
  intros Hwf. unfold filter_rows_columns. apply wf_select_cols.
  - by apply wf_filter_rows.
  - by rewrite length_col_mask.
Qed.

Lemma count_na_le (cells : list cell) : count_na cells ≤ length cells.
Proof. unfold count_na. apply length_filter. Qed.

Lemma count_na_lt_inv (cells : list cell) :
  count_na cells < length cells → ∃ x, x ∈ cells ∧ is_na x = false.
Proof.
  unfold count_na. induction cells as [|x cells IH]; simpl; [lia|].
  destruct (is_na x) eqn:Hx.
  - rewrite filter_cons_True by done. simpl. intros Hlt.
    destruct IH as (y & Hy & Hna); [lia|]. exists y. split; [by right | done].
  - intros _. exists x. split; [by left | done].
Qed.

(** A row or column that passes a threshold below 1 has a cell that is not
    blank. *)
Lemma na_mean_le_lt_1 (cells : list cell) (thr : Q) :
  na_mean_le cells thr = true → (thr < 1)%Q →
  ∃ x, x ∈ cells ∧ is_na x = false.
Proof.
  unfold na_mean_le. destruct (length cells) as [|n] eqn:Hlen; [done|].
  intros Hle Hthr. apply Qle_bool_iff in Hle.
  apply count_na_lt_inv. rewrite Hlen.
  pose proof (Qle_lt_trans _ _ _ Hle Hthr) as Hlt.
  unfold Qlt in Hlt. simpl in Hlt. lia.
Qed.

Lemma all_na_false_intro (cells : list cell) (x : cell) :
  x ∈ cells → is_na x = false → all_na cells = false.
Proof.
  intros Hin Hx. unfold all_na. apply not_true_is_false. intros Hall.
  rewrite forallb_forall in Hall. apply list_elem_of_In in Hin.
  specialize (Hall _ Hin). congruence.
Qed.

(** ** Rows that survive edge trimming *)

Lemma blank_run_app_false (p1 p2 : list bool) :
  blank_run (p1 ++ false :: p2) ≤ length p1.
Proof. induction p1 as [|[] p1 IH]; simpl; lia. Qed.

(** A row that is not fully blank is never cut by the trim. *)
Lemma trim_keeps_nonblank {A} (f : A → bool) (l : list A) (x : A) (t : Z) :
  x ∈ l → f x = false →
  x ∈ slice (trim_bounds (map f l) t).1 (trim_bounds (map f l) t).2 l.
Proof.
  intros Hin Hx. apply list_elem_of_split in Hin as (l1 & l2 & ->).
  pose proof (blank_run_app_false (map f l1) (map f l2)) as Hlead.
  pose proof (blank_run_app_false (reverse (map f l2)) (reverse (map f l1))) as Htrail.
  rewrite length_map in Hlead. rewrite length_reverse, length_map in Htrail.
  assert (map f (l1 ++ x :: l2) = map f l1 ++ false :: map f l2) as Hmap.
  { by rewrite map_app, map_cons, Hx. }
  assert (reverse (map f (l1 ++ x :: l2)) =
          reverse (map f l2) ++ false :: reverse (map f l1)) as Hrev.
  { rewrite Hmap, reverse_app, reverse_cons, <- app_assoc. done. }
  unfold trim_bounds. rewrite Hrev, Hmap. cbn [fst snd].
  set (s := if (_ <? _)%Z then _ else 0).
  set (e := if (_ <? _)%Z then _ else _).
  assert (s ≤ length l1) as Hs by (subst s; case_match; lia).
  assert (length l1 < e) as He.
  { subst e. rewrite !length_app. cbn [length]. rewrite !length_map.
    case_match; lia. }
  apply list_elem_of_lookup. exists (length l1 - s).
  rewrite slice_lookup. rewrite bool_decide_true by lia.
  replace (s + (length l1 - s)) with (length l1) by lia.
  by rewrite list_lookup_middle.
Qed.

(** ** When a trim pass changes nothing *)

Lemma map_fix_Forall {A} (f : A → A) (l : list A) :
  Forall (λ x, f x = x) l → map f l = l.
Proof. induction 1 as [|x l Hx _ IH]; simpl; congruence. Qed.

Lemma trim_bounds_within (pattern : list bool) (t : Z) :
  edge_runs_within pattern t → trim_bounds pattern t = (0, length pattern).
Proof.
  intros [Hl Hr]. unfold trim_bounds.
  destruct (Z.ltb_spec t (Z.of_nat (blank_run pattern))); [lia|].
  destruct (Z.ltb_spec t (Z.of_nat (blank_run (reverse pattern)))); [lia|]. done.
Qed.

Lemma trim_bounds_all_false (pattern : list bool) (t : Z) :
  Forall (λ b, b = false) pattern → trim_bounds pattern t = (0, length pattern).
Proof.
  intros Hall. unfold trim_bounds.
  rewrite (blank_run_0 pattern) by done.
  rewrite (blank_run_0 (reverse pattern)) by (by apply Forall_reverse).
  repeat case_match; f_equal; lia.
Qed.

Lemma trim_rows_noop (data : DataFrame) (t : Z) :
  trim_bounds (map all_na (rows data)) t = (0, length (rows data)) →
  trim_blank_edges data true t = data.
Proof.
  intros Hb. rewrite trim_blank_edges_rows, Hb. simpl.
  rewrite slice_all by done. by destruct data.
Qed.

Lemma trim_cols_noop (data : DataFrame) (t : Z) :
  wf_df data →
  trim_bounds (col_mask all_na data) t = (0, ncols data) →
  trim_blank_edges data false t = data.
Proof.
  intros Hwf Hb. rewrite trim_blank_edges_cols, Hb. simpl.
  rewrite slice_all by (by rewrite length_seq). rewrite length_seq.
  destruct data as [n rs]. simpl in *. f_equal.
  apply map_fix_Forall.
  eapply Forall_impl; [exact Hwf|]. simpl. intros r Hr.
  apply slice_all. lia.
Qed.

Lemma wf_trim_rows (data : DataFrame) (t : Z) :
  wf_df data → wf_df (trim_blank_edges data true t).
Proof.
  intros Hwf. rewrite trim_blank_edges_rows. unfold wf_df, slice. simpl.
  by apply Forall_take, Forall_drop.
Qed.

(** Every column with a cell that is not blank keeps such a cell when the
    blank edges are trimmed on the row axis. *)
Lemma col_mask_after_trim_rows (data : DataFrame) (t : Z) :
  Forall (λ c, ∃ x, x ∈ c ∧ is_na x = false) (columns_of data) →
  Forall (λ b, b = false) (col_mask all_na (trim_blank_edges data true t)).
Proof.
  intros Hcols. rewrite trim_blank_edges_rows. unfold col_mask. simpl.
  rewrite Forall_fmap. apply Forall_forall. intros j Hj. simpl.
  rewrite Forall_forall in Hcols.
  destruct (Hcols (column data j)) as (x & Hx & Hna).
  { unfold columns_of. apply list_elem_of_fmap. by exists j. }
  unfold column in Hx. apply list_elem_of_fmap in Hx as (r & -> & Hr).
  assert (all_na r = false) as Hrow.
  { unfold cell_at in Hna. destruct (r !! j) as [y|] eqn:Hy; [|done].
    simpl in Hna. eapply all_na_false_intro; [|exact Hna].
    by eapply list_elem_of_lookup_2. }
  apply (all_na_false_intro _ (cell_at r j)); [|done].
  unfold column. simpl. apply list_elem_of_fmap. exists r. split; [done|].
  by apply trim_keeps_nonblank.
Qed.

(** ** Clean blocks are fixed by the cleaner *)

Lemma filter_rows_columns_clean df rthr cthr :
  wf_df df →
  Forall (λ r, na_mean_le r rthr = true) (rows df) →
  Forall (λ c, na_mean_le c cthr = true) (columns_of df) →
  filter_rows_columns df rthr cthr = df.
Proof.
  intros Hwf Hrows Hcols. unfold filter_rows_columns.
  rewrite filter_all by done. destruct df as [n rs]. simpl in *.
  assert (Forall (λ b, b = true)
            (col_mask (λ col, na_mean_le col cthr) {| ncols := n; rows := rs |}))
    as Hmask.
  { rewrite col_mask_columns, Forall_fmap. done. }
  unfold select_cols. simpl. f_equal.
  - rewrite select_all; [by rewrite length_seq | done |].
    by rewrite length_seq, length_col_mask.
  - apply map_fix_Forall.
    eapply Forall_impl; [exact Hwf|]. simpl. intros r Hr.
    apply select_all; [done|]. by rewrite length_col_mask.
Qed.

Lemma clean_up_table_clean df rthr cthr t :
  wf_df df → already_clean df rthr cthr t → clean_up_table df rthr cthr t = df.
Proof.
  intros Hwf (Hrows & Hcols & Hr & Hc). unfold clean_up_table.
  rewrite filter_rows_columns_clean by done.
  rewrite trim_rows_noop.
  - apply trim_cols_noop; [done|].
    rewrite trim_bounds_within by done. by rewrite length_col_mask.
  - rewrite trim_bounds_within by done. by rewrite length_map.
Qed.

(** ** The column pass of the trim after the sparsity filter *)

Lemma filter_rows_columns_cols_nonblank df rthr cthr :
  wf_df df → (cthr < 1)%Q →
  Forall (λ c, ∃ x, x ∈ c ∧ is_na x = false)
         (columns_of (filter_rows_columns df rthr cthr)).
Proof.
  intros Hwf Hthr. unfold filter_rows_columns.
  set (df1 := {| ncols := ncols df; rows := filter _ (rows df) |}).
  assert (wf_df df1) as Hwf1 by (by apply wf_filter_rows).
  rewrite columns_of_select_cols; [|done|by rewrite length_col_mask].
  rewrite col_mask_columns.
  eapply Forall_impl; [apply select_self_Forall|]. simpl.
  intros c Hc. by eapply na_mean_le_lt_1.
Qed.

Lemma clean_up_table_row_trim_only df rthr cthr t :
  wf_df df → (cthr < 1)%Q →
  clean_up_table df rthr cthr t =
    trim_blank_edges (filter_rows_columns df rthr cthr) true t.
Proof.
  intros Hwf Hthr. unfold clean_up_table.
  apply trim_cols_noop.
  - by apply wf_trim_rows, wf_filter_rows_columns.
  - rewrite trim_bounds_all_false, length_col_mask; [done|].
    by apply col_mask_after_trim_rows, filter_rows_columns_cols_nonblank.
Qed.

(** C8, as amended: for every rectangular block that is already clean
    (the blank fraction of every row and column is at most its threshold,
    and no leading or trailing run of fully blank rows or columns is longer
    than the tolerance), [clean_up_table] returns the block unchanged.
    Nothing is said of the outputs of [clean_up_table] in general: they
    need not be clean in this sense. *)
Theorem clean_up_table_unchanged_on_clean_blocks
    (df : DataFrame) (rthr cthr : Q) (t : Z) :
  wf_df df → already_clean df rthr cthr t →
  clean_up_table df rthr cthr t = df.
Proof. intros Hwf Hclean. by apply clean_up_table_clean. Qed.

Lemma block_dense_wf : wf_df block_dense.
Proof. unfold wf_df, block_dense. simpl. by repeat constructor. Qed.

Lemma block_dense_clean :
  already_clean block_dense default_ratio default_ratio default_streak.
Proof.
  unfold already_clean, edge_runs_within. repeat split; try by vm_compute.
  - unfold block_dense. simpl. by repeat constructor.
  - unfold columns_of, block_dense. simpl. by repeat constructor.
Qed.

Lemma clean_up_table_unchanged_on_clean_blocks_witness :
  wf_df block_dense ∧
  already_clean block_dense default_ratio default_ratio default_streak ∧
  clean_up_table block_dense default_ratio default_ratio default_streak = block_dense.
Proof.
  split; [exact block_dense_wf|]. split; [exact block_dense_clean|].
  exact (clean_up_table_unchanged_on_clean_blocks block_dense default_ratio
           default_ratio default_streak block_dense_wf block_dense_clean).
Defined.

(** C8, as stated, fails on its gloss: [clean_up_table] is not idempotent
    on its own outputs.  With the default thresholds the first run drops
    the two sparse columns that held the only values of the title row and
    keeps that row, now fully blank; a second run drops it. *)
Lemma clean_up_table_not_idempotent :
  let once := clean_up_table block_title_over_gap default_ratio default_ratio
                default_streak in
  let twice := clean_up_table once default_ratio default_ratio default_streak in
  rows once = [[None; None]; [Some "p"; Some "q"]; [Some "r"; Some "s"]] ∧
  rows twice = [[Some "p"; Some "q"]; [Some "r"; Some "s"]] ∧
  twice ≠ once.
Proof. vm_compute. repeat split; discriminate. Qed.

(** C9, as amended: for every rectangular block and every column threshold
    strictly below 1, the column pass of [trim_blank_edges] removes
    nothing, so [clean_up_table] is [filter_rows_columns] followed by the
    row pass of [trim_blank_edges] (and re-indexing); when the filtered
    block has no leading or trailing run of fully blank rows longer than
    the tolerance, it is [filter_rows_columns] alone. *)
Theorem clean_up_table_column_trim_idle
    (df : DataFrame) (rthr cthr : Q) (t : Z) :
  wf_df df → (cthr < 1)%Q →
  let filtered := filter_rows_columns df rthr cthr in
  clean_up_table df rthr cthr t = trim_blank_edges filtered true t ∧
  (edge_runs_within (map all_na (rows filtered)) t →
   clean_up_table df rthr cthr t = filtered).
Proof.
  intros Hwf Hthr filtered. split.
  - by apply clean_up_table_row_trim_only.
  - intros Hruns. rewrite clean_up_table_row_trim_only by done.
    apply trim_rows_noop. fold filtered.
    rewrite trim_bounds_within by done. by rewrite length_map.
Qed.

Lemma block_two_rows_over_gap_wf : wf_df block_two_rows_over_gap.
Proof. unfold wf_df, block_two_rows_over_gap. simpl. by repeat constructor. Qed.

Lemma clean_up_table_column_trim_idle_witness :
  wf_df block_two_rows_over_gap ∧ (default_ratio < 1)%Q ∧
  clean_up_table block_two_rows_over_gap default_ratio default_ratio default_streak =
    trim_blank_edges
      (filter_rows_columns block_two_rows_over_gap default_ratio default_ratio)
      true default_streak.
Proof.
  split; [exact block_two_rows_over_gap_wf|]. split; [reflexivity|].
  exact (proj1 (clean_up_table_column_trim_idle block_two_rows_over_gap
                  default_ratio default_ratio default_streak
                  block_two_rows_over_gap_wf eq_refl)).
Defined.

(** C9, as stated, fails: with the default thresholds the sparsity filter
    keeps the two top rows (half blank) and then drops the two sparse
    columns that held their values; the rows are now fully blank, the
    leading run of length 2 is longer than the tolerance, and the row pass
    of the trim removes them. *)
Lemma clean_up_table_trim_removes_rows :
  let filtered := filter_rows_columns block_two_rows_over_gap default_ratio
                    default_ratio in
  let cleaned := clean_up_table block_two_rows_over_gap default_ratio default_ratio
                   default_streak in
  (default_ratio < 1)%Q ∧
  length (rows filtered) = 6 ∧
  length (rows cleaned) = 4 ∧
  cleaned ≠ filtered.
Proof. vm_compute. repeat split; discriminate. Qed.

(** ** Strictly sorted lists of indices *)

Lemma StronglySorted_lt_lookup (l : list nat) (i j x y : nat) :
  StronglySorted lt l → l !! i = Some x → l !! j = Some y → i < j → x < y.
Proof.
  intros Hs. revert i j. induction Hs as [|z l Hs IH Hall]; intros i j Hi Hj Hij.
  - done.
  - destruct j as [|j]; [lia|]. simpl in Hj. destruct i as [|i]; simpl in Hi.
    + simplify_eq. rewrite Forall_forall in Hall. apply Hall.
      by eapply list_elem_of_lookup_2.
    + eapply IH; [done..|lia].
Qed.

Lemma StronglySorted_lt_lookup_le (l : list nat) (i j x y : nat) :
  StronglySorted lt l → l !! i = Some x → l !! j = Some y → i ≤ j → x ≤ y.
Proof.
  intros Hs Hi Hj Hij. destruct (decide (i = j)) as [->|Hne].
  - simplify_eq. lia.
  - apply Nat.lt_le_incl. eapply (StronglySorted_lt_lookup l i j); [done..|lia].
Qed.

Lemma StronglySorted_le_NoDup_lt (l : list nat) :
  StronglySorted le l → NoDup l → StronglySorted lt l.
Proof.
  induction 1 as [|x l Hs IH Hall]; intros Hnd; [constructor|].
  apply NoDup_cons in Hnd as [Hx Hnd]. constructor; [by apply IH|].
  rewrite Forall_forall in Hall. apply Forall_forall. intros y Hy.
  specialize (Hall _ Hy). assert (x ≠ y) by (intros ->; done). lia.
Qed.

Lemma merge_sort_le_strict (l : list nat) :
  NoDup l → StronglySorted lt (merge_sort le l).
Proof.
  intros Hnd. apply StronglySorted_le_NoDup_lt.
  - apply StronglySorted_merge_sort; apply _.
  - by rewrite merge_sort_Permutation.
Qed.

Lemma elem_of_merge_sort (l : list nat) (x : nat) :
  x ∈ merge_sort le l ↔ x ∈ l.
Proof. by rewrite merge_sort_Permutation. Qed.

Lemma next_or_lookup (l : list nat) (i y last : nat) :
  l !! (i + 1) = Some y → next_or l i last = y.
Proof.
  intros Hy. unfold next_or. rewrite bool_decide_true.
  - by rewrite (list_lookup_total_correct _ _ _ Hy).
  - by eapply lookup_lt_Some.
Qed.

Lemma next_or_last (l : list nat) (i last : nat) :
  length l ≤ i + 1 → next_or l i last = last.
Proof. intros Hi. unfold next_or. rewrite bool_decide_false; [done | lia]. Qed.

(** In a strictly sorted list the element after [x] is the smallest
    element above [x]. *)
Lemma next_or_is_next_above (l : list nat) (i x last : nat) :
  StronglySorted lt l → l !! i = Some x →
  is_next_above l x (next_or l i last) last.
Proof.
  intros Hs Hi. destruct (l !! (i + 1)) as [y|] eqn:Hy.
  - rewrite (next_or_lookup _ _ _ _ Hy). left. split_and!.
    + by eapply list_elem_of_lookup_2.
    + eapply (StronglySorted_lt_lookup l i (i + 1)); [done..|lia].
    + intros z Hz Hxz. apply list_elem_of_lookup in Hz as [k Hk].
      destruct (decide (k ≤ i)) as [Hle|Hgt].
      * pose proof (StronglySorted_lt_lookup_le l k i z x Hs Hk Hi Hle). lia.
      * eapply (StronglySorted_lt_lookup_le l (i + 1) k); [done..|lia].
  - apply lookup_ge_None in Hy. rewrite next_or_last by done. right.
    split; [done|]. intros z Hz. apply list_elem_of_lookup in Hz as [k Hk].
    pose proof (lookup_lt_Some _ _ _ Hk).
    eapply (StronglySorted_lt_lookup_le l k i); [done..|lia].
Qed.

Lemma is_next_above_ext (l l' : list nat) (x b last : nat) :
  (∀ y, y ∈ l ↔ y ∈ l') → is_next_above l x b last → is_next_above l' x b last.
Proof.
  intros Hext [(Hb & Hlt & Hmin)|(-> & Hmax)]; [left|right].
  - split_and!; [by apply Hext | done |]. intros y Hy. apply Hmin. by apply Hext.
  - split; [done|]. intros y Hy. apply Hmax. by apply Hext.
Qed.

Lemma is_next_above_gt (l : list nat) (x b last : nat) :
  x < last → is_next_above l x b last → x < b.
Proof. intros Hlast [(_ & Hlt & _)|(-> & _)]; lia. Qed.

(** ** The vertical boundaries *)

Lemma collect_title_rows_aux (acc : list nat) (tp : list position) :
  let res := foldl (λ title_rows p,
                      if bool_decide (pos_row p ∈ title_rows) then title_rows
                      else title_rows ++ [pos_row p]) acc tp in
  NoDup acc → NoDup res ∧ ∀ x, x ∈ res ↔ x ∈ acc ∨ x ∈ pos_row <$> tp.
Proof.
  revert acc. induction tp as [|p tp IH]; intros acc res Hnd; subst res; simpl.
  - split; [done|]. intros x. rewrite elem_of_nil. tauto.
  - case_bool_decide as Hin.
    + destruct (IH acc Hnd) as [Hnd' Hiff]. split; [done|].
      intros x. rewrite Hiff, elem_of_cons. split; [tauto|].
      intros [?|[->|?]]; tauto.
    + assert (NoDup (acc ++ [pos_row p])) as Hnd2.
      { apply NoDup_app. split_and!; [done| |apply NoDup_singleton].
        intros x Hx Hx'. apply list_elem_of_singleton in Hx' as ->. done. }
      destruct (IH _ Hnd2) as [Hnd' Hiff]. split; [done|].
      intros x. rewrite Hiff, elem_of_app, list_elem_of_singleton, elem_of_cons.
      tauto.
Qed.

Lemma collect_title_rows_NoDup tp : NoDup (collect_title_rows tp).
Proof. apply (collect_title_rows_aux [] tp). constructor. Qed.

Lemma elem_of_collect_title_rows tp x :
  x ∈ collect_title_rows tp ↔ x ∈ pos_row <$> tp.
Proof.
  destruct (collect_title_rows_aux [] tp) as [_ Hiff]; [constructor|].
  unfold collect_title_rows. rewrite Hiff, elem_of_nil. tauto.
Qed.

Lemma row_boundaries_fold (l : list nat) (total k : nat) :
  NoDup l → k ≤ length l →
  let m := foldl (λ (rb : gmap nat nat) i,
                    <[l !!! i := next_or l i total]> rb) ∅ (seq 0 k) in
  ∀ x v, m !! x = Some v ↔ ∃ i, i < k ∧ l !! i = Some x ∧ v = next_or l i total.
Proof.
  intros Hnd. induction k as [|k IH]; intros Hk m x v; subst m.
  - simpl. rewrite lookup_empty. split; [done|]. intros (i & ? & _); lia.
  - rewrite seq_S, foldl_snoc. simpl.
    destruct (lookup_lt_is_Some_2 l k) as [y Hy]; [lia|].
    rewrite (list_lookup_total_correct _ _ _ Hy).
    destruct (decide (y = x)) as [->|Hne].
    + rewrite lookup_insert_eq. split.
      * intros [= <-]. exists k. split_and!; [lia|done..].
      * intros (i & Hi & Hix & ->). f_equal.
        by rewrite (NoDup_lookup _ _ _ _ Hnd Hix Hy).
    + rewrite lookup_insert_ne by done. rewrite IH by lia. split.
      * intros (i & Hi & Hix & ->). exists i. split_and!; [lia|done..].
      * intros (i & Hi & Hix & ->). exists i. split_and!; [|done..].
        destruct (decide (i = k)) as [->|]; [congruence | lia].
Qed.

Lemma calculate_row_boundaries_lookup tp total r b :
  calculate_row_boundaries tp total !! r = Some b →
  r ∈ pos_row <$> tp ∧ is_next_above (pos_row <$> tp) r b total.
Proof.
  unfold calculate_row_boundaries.
  set (l := merge_sort le (collect_title_rows tp)).
  assert (StronglySorted lt l) as Hs
    by apply merge_sort_le_strict, collect_title_rows_NoDup.
  assert (NoDup l) as Hnd
    by (subst l; rewrite merge_sort_Permutation; apply collect_title_rows_NoDup).
  assert (∀ y, y ∈ l ↔ y ∈ pos_row <$> tp) as Hext.
  { intros y. subst l. by rewrite elem_of_merge_sort, elem_of_collect_title_rows. }
  intros Hb. apply (row_boundaries_fold l total (length l) Hnd) in Hb
    as (i & Hi & Hix & ->); [|done].
  split.
  - apply Hext. by eapply list_elem_of_lookup_2.
  - eapply is_next_above_ext; [exact Hext|]. by apply next_or_is_next_above.
Qed.

Lemma calculate_row_boundaries_is_Some tp total r :
  r ∈ pos_row <$> tp → is_Some (calculate_row_boundaries tp total !! r).
Proof.
  unfold calculate_row_boundaries.
  set (l := merge_sort le (collect_title_rows tp)).
  assert (NoDup l) as Hnd
    by (subst l; rewrite merge_sort_Permutation; apply collect_title_rows_NoDup).
  intros Hr.
  assert (r ∈ l) as Hrl
    by (subst l; by rewrite elem_of_merge_sort, elem_of_collect_title_rows).
  apply list_elem_of_lookup in Hrl as [i Hi].
  exists (next_or l i total).
  apply (row_boundaries_fold l total (length l) Hnd); [done|].
  exists i. split_and!; [by eapply lookup_lt_Some | done..].
Qed.

(** ** The horizontal boundaries *)

Lemma cols_on_row_cons p tp r :
  cols_on_row (p :: tp) r =
    if decide (pos_row p = r) then pos_col p :: cols_on_row tp r
    else cols_on_row tp r.
Proof.
  unfold cols_on_row. case_decide.
  - by rewrite filter_cons_True.
  - by rewrite filter_cons_False.
Qed.

Lemma group_titles_by_row_aux (m : gmap nat (list nat)) (tp : list position) (r : nat) :
  foldl (λ row_to_cols p,
           let row_to_cols :=
             if bool_decide (is_Some (row_to_cols !! pos_row p)) then row_to_cols
             else <[pos_row p := []]> row_to_cols in
           alter (λ cols, cols ++ [pos_col p]) (pos_row p) row_to_cols)
        m tp !! r =
  match m !! r, cols_on_row tp r with
  | Some cs, cs' => Some (cs ++ cs')
  | None, [] => None
  | None, cs' => Some cs'
  end.
Proof.
  revert m. induction tp as [|p tp IH]; intros m.
  - simpl. destruct (m !! r); [by rewrite app_nil_r | done].
  - cbn [foldl]. rewrite IH, cols_on_row_cons. clear IH.
    case_decide as Hrow.
    + subst r. case_bool_decide as Hsome.
      * destruct Hsome as [cs Hcs]. rewrite lookup_alter_eq, Hcs. simpl.
        by rewrite <- app_assoc.
      * apply eq_None_not_Some in Hsome. rewrite Hsome.
        by rewrite lookup_alter_eq, lookup_insert_eq.
    + case_bool_decide.
      * by rewrite lookup_alter_ne.
      * by rewrite lookup_alter_ne, lookup_insert_ne.
Qed.

Lemma group_titles_by_row_lookup tp r :
  group_titles_by_row tp !! r =
    match cols_on_row tp r with
    | [] => None
    | cs => Some cs
    end.
Proof.
  unfold group_titles_by_row. rewrite group_titles_by_row_aux.
  by rewrite lookup_empty.
Qed.

Lemma elem_of_cols_on_row tp r c :
  c ∈ cols_on_row tp r ↔ ∃ p, p ∈ tp ∧ pos_row p = r ∧ pos_col p = c.
Proof.
  unfold cols_on_row. rewrite list_elem_of_fmap. split.
  - intros (p & -> & Hp). apply list_elem_of_filter in Hp as [? ?]. eauto.
  - intros (p & Hp & Hr & Hc). exists p. split; [done|].
    by apply list_elem_of_filter.
Qed.

Lemma build_segments_lookup cs total j :
  j < length cs →
  build_segments cs total !! j = Some (cs !!! j, next_or cs j total).
Proof.
  intros Hj. unfold build_segments.
  change (map ?f ?l) with (f <$> l).
  by rewrite list_lookup_fmap, lookup_seq_lt.
Qed.

(** The boundaries found for column [c] of a strictly sorted list of the
    title columns of a row. *)
Lemma segment_of_sorted (cs : list nat) (i c total : nat) :
  StronglySorted lt cs → cs !! i = Some c → c < total →
  list_find (λ seg : nat * nat, seg.1 ≤ c ∧ c < seg.2) (build_segments cs total) =
    Some (i, (c, next_or cs i total)).
Proof.
  intros Hs Hi Hc. pose proof (lookup_lt_Some _ _ _ Hi) as Hlen.
  apply list_find_Some. split_and!.
  - rewrite build_segments_lookup by done.
    by rewrite (list_lookup_total_correct _ _ _ Hi).
  - done.
  - simpl. eapply is_next_above_gt; [exact Hc|].
    by apply next_or_is_next_above.
  - intros j seg Hj Hji. rewrite build_segments_lookup in Hj by lia.
    simplify_eq. simpl. intros [_ Hlt].
    destruct (lookup_lt_is_Some_2 cs (j + 1)) as [y Hy]; [lia|].
    rewrite (next_or_lookup _ _ _ _ Hy) in Hlt.
    pose proof (StronglySorted_lt_lookup_le cs (j + 1) i y c Hs Hy Hi). lia.
Qed.

(** C4, horizontal part, for any list of occurrences at distinct cells:
    the only occurrence on a row spans the full width; among several, the
    occurrence spans from its own column to the next title column of the
    row, or to the width. *)
Lemma determine_horizontal_boundaries_spec tp r c total :
  NoDup (cols_on_row tp r) → c ∈ cols_on_row tp r → c < total →
  ∃ lr, determine_horizontal_boundaries r c (group_titles_by_row tp) total = Some lr ∧
    if bool_decide (1 < length (cols_on_row tp r))
    then lr.1 = c ∧ is_next_above (cols_on_row tp r) c lr.2 total
    else lr = (0, total).
Proof.
  intros Hnd Hc Htot. unfold determine_horizontal_boundaries.
  rewrite group_titles_by_row_lookup.
  destruct (cols_on_row tp r) as [|c0 cs0] eqn:Hcs; [by apply elem_of_nil in Hc|].
  rewrite <- Hcs in *. clear Hcs. simpl.
  set (cs := merge_sort le (cols_on_row tp r)).
  assert (length cs = length (cols_on_row tp r)) as Hlen
    by (subst cs; by rewrite merge_sort_Permutation).
  rewrite Hlen. case_bool_decide as Hmany; [|eauto].
  assert (StronglySorted lt cs) as Hs by by apply merge_sort_le_strict.
  assert (c ∈ cs) as Hccs by (subst cs; by rewrite elem_of_merge_sort).
  apply list_elem_of_lookup in Hccs as [i Hi].
  rewrite (segment_of_sorted cs i c total Hs Hi Htot).
  eexists. split; [done|]. simpl. split; [done|].
  eapply is_next_above_ext; [|by apply next_or_is_next_above].
  intros y. subst cs. by rewrite elem_of_merge_sort.
Qed.

(** ** The title locator *)

Lemma elem_of_scan_titles df p :
  p ∈ scan_titles df ↔
    pos_row p < length (rows df) ∧ pos_col p < ncols df ∧
    pos_title p = strip (str_cell (iat df (pos_row p) (pos_col p))) ∧
    pos_title p ∈ TABLE_TITLES.
Proof.
  unfold scan_titles, shape. destruct p as [[r c] t].
  unfold pos_row, pos_col, pos_title. simpl.
  rewrite list_elem_of_bind. split.
  - intros (r' & Hin & Hr'). apply list_elem_of_bind in Hin as (c' & Hin & Hc').
    apply elem_of_seq in Hr', Hc'. case_bool_decide as Ht; [|by apply elem_of_nil in Hin].
    apply list_elem_of_singleton in Hin. simplify_eq. split_and!; [lia|lia|done|done].
  - intros (Hr & Hc & -> & Ht). exists r. split; [|apply elem_of_seq; lia].
    apply list_elem_of_bind. exists c. split; [|apply elem_of_seq; lia].
    rewrite bool_decide_true by done. by apply list_elem_of_singleton.
Qed.

Lemma elem_of_if_singleton {A} (b : bool) (x y : A) :
  x ∈ (if b then [y] else []) → x = y.
Proof.
  destruct b; intros Hx; [by apply list_elem_of_singleton in Hx|].
  by apply elem_of_nil in Hx.
Qed.

Lemma scan_titles_NoDup df : NoDup (scan_titles df).
Proof.
  unfold scan_titles, shape. apply NoDup_bind.
  - intros r1 r2 p _ _ H1 H2.
    apply list_elem_of_bind in H1 as (c1 & H1 & _).
    apply list_elem_of_bind in H2 as (c2 & H2 & _).
    apply elem_of_if_singleton in H1, H2. congruence.
  - intros r _. apply NoDup_bind.
    + intros c1 c2 p _ _ H1 H2.
      apply elem_of_if_singleton in H1, H2. congruence.
    + intros c _. case_bool_decide; [apply NoDup_singleton | constructor].
    + apply NoDup_seq.
  - apply NoDup_seq.
Qed.

Lemma scan_titles_cells_NoDup df : NoDup (pos_cell <$> scan_titles df).
Proof.
  apply NoDup_fmap_2_strong; [|apply scan_titles_NoDup].
  intros [[r1 c1] t1] [[r2 c2] t2] H1 H2 Heq.
  apply elem_of_scan_titles in H1 as (_ & _ & Ht1 & _).
  apply elem_of_scan_titles in H2 as (_ & _ & Ht2 & _).
  unfold pos_cell, pos_row, pos_col, pos_title in *. simpl in *. congruence.
Qed.

Lemma locate_table_titles_perm df : locate_table_titles df ≡ₚ scan_titles df.
Proof. apply merge_sort_Permutation. Qed.

Lemma elem_of_locate_table_titles df p :
  p ∈ locate_table_titles df ↔
    pos_row p < length (rows df) ∧ pos_col p < ncols df ∧
    pos_title p = strip (str_cell (iat df (pos_row p) (pos_col p))) ∧
    pos_title p ∈ TABLE_TITLES.
Proof. rewrite locate_table_titles_perm. apply elem_of_scan_titles. Qed.

Lemma locate_table_titles_ok df :
  anchors_ok (locate_table_titles df) (length (rows df)) (ncols df).
Proof.
  split.
  - rewrite locate_table_titles_perm. apply scan_titles_cells_NoDup.
  - intros p Hp. apply elem_of_locate_table_titles in Hp as (? & ? & _). done.
Qed.

#[global] Instance pos_le_total : Total pos_le.
Proof.
  intros [[r1 c1] t1] [[r2 c2] t2]. unfold pos_le, pos_row, pos_col, pos_title.
  simpl.
  destruct (Nat.lt_total r1 r2) as [?|[->|?]]; [by left; left| |by right; left].
  destruct (Nat.lt_total c1 c2) as [?|[->|?]];
    [by left; right; split; [|left] | | by right; right; split; [|left]].
  destruct (total String.le t1 t2); [left|right]; right; split; try done;
    right; by split.
Qed.

Lemma locate_table_titles_sorted df : Sorted pos_le (locate_table_titles df).
Proof. apply Sorted_merge_sort. apply _. Qed.

(** ** Occurrences at distinct cells *)

Lemma anchors_ok_inj tp nrows cols p q :
  anchors_ok tp nrows cols → p ∈ tp → q ∈ tp → pos_cell p = pos_cell q → p = q.
Proof.
  intros [Hnd _] Hp Hq Heq.
  apply list_elem_of_lookup in Hp as [i Hi]. apply list_elem_of_lookup in Hq as [j Hj].
  assert ((pos_cell <$> tp) !! i = Some (pos_cell p)) as Hi'
    by (by rewrite list_lookup_fmap, Hi).
  assert ((pos_cell <$> tp) !! j = Some (pos_cell p)) as Hj'
    by (by rewrite list_lookup_fmap, Hj, Heq).
  pose proof (NoDup_lookup _ _ _ _ Hnd Hi' Hj'). congruence.
Qed.

Lemma cols_on_row_NoDup tp nrows cols r :
  anchors_ok tp nrows cols → NoDup (cols_on_row tp r).
Proof.
  intros [Hnd _]. unfold cols_on_row.
  induction tp as [|p tp IH]; [constructor|].
  rewrite fmap_cons in Hnd. apply NoDup_cons in Hnd as [Hp Hnd].
  destruct (decide (pos_row p = r)) as [Hr|Hr].
  - rewrite filter_cons_True by done. rewrite fmap_cons.
    apply NoDup_cons. split; [|by apply IH].
    intros Hin. apply list_elem_of_fmap in Hin as (q & Hc & Hq).
    apply list_elem_of_filter in Hq as [Hqr Hq].
    apply Hp. apply list_elem_of_fmap. exists q. split; [|done].
    destruct p as [[? ?] ?], q as [[? ?] ?].
    unfold pos_cell, pos_row, pos_col in *. simpl in *. congruence.
  - rewrite filter_cons_False by done. by apply IH.
Qed.

Lemma length_gt_1_of_two {A} (l : list A) (x y : A) :
  x ∈ l → y ∈ l → x ≠ y → 1 < length l.
Proof.
  destruct l as [|a [|b l]]; simpl; intros Hx Hy Hne; [by apply elem_of_nil in Hx| |lia].
  apply list_elem_of_singleton in Hx, Hy. congruence.
Qed.

(** ** The source rectangle of an anchor *)

Lemma rect_of_unfold df p rc :
  rect_of df p = Some rc →
  ∃ bottom lr,
    rc = (pos_row p, bottom, lr.1, lr.2) ∧
    calculate_row_boundaries (locate_table_titles df) (length (rows df)) !! pos_row p
      = Some bottom ∧
    determine_horizontal_boundaries (pos_row p) (pos_col p)
      (group_titles_by_row (locate_table_titles df)) (ncols df) = Some lr.
Proof.
  unfold rect_of, shape. intros Hrc.
  destruct (calculate_row_boundaries _ _ !! pos_row p) as [bottom|]; [|done].
  simpl in Hrc.
  destruct (determine_horizontal_boundaries _ _ _ _) as [[l r]|]; [|done].
  simpl in Hrc. simplify_eq. by exists bottom, (l, r).
Qed.

Lemma rect_of_spec df p :
  let tp := locate_table_titles df in
  p ∈ tp →
  ∃ bottom lr,
    rect_of df p = Some (pos_row p, bottom, lr.1, lr.2) ∧
    is_next_above (pos_row <$> tp) (pos_row p) bottom (length (rows df)) ∧
    if bool_decide (1 < length (cols_on_row tp (pos_row p)))
    then lr.1 = pos_col p ∧
         is_next_above (cols_on_row tp (pos_row p)) (pos_col p) lr.2 (ncols df)
    else lr = (0, ncols df).
Proof.
  intros tp Hp. pose proof (locate_table_titles_ok df) as Hok. fold tp in Hok.
  destruct (proj2 Hok p Hp) as [Hr Hc].
  destruct (calculate_row_boundaries_is_Some tp (length (rows df)) (pos_row p))
    as [bottom Hb].
  { apply list_elem_of_fmap. by exists p. }
  destruct (determine_horizontal_boundaries_spec tp (pos_row p) (pos_col p) (ncols df))
    as (lr & Hlr & Hspec).
  { by eapply cols_on_row_NoDup. }
  { apply elem_of_cols_on_row. by exists p. }
  { done. }
  exists bottom, lr. split_and!.
  - unfold rect_of, shape. fold tp. rewrite Hb. simpl. rewrite Hlr. simpl.
    by destruct lr.
  - by apply calculate_row_boundaries_lookup in Hb as [_ ?].
  - done.
Qed.

Lemma rect_of_is_Some df p :
  p ∈ locate_table_titles df → is_Some (rect_of df p).
Proof. intros Hp. destruct (rect_of_spec df p Hp) as (? & ? & -> & _). eauto. Qed.

(** An anchor lies in its own rectangle. *)
Lemma rect_of_contains df p rc :
  p ∈ locate_table_titles df → rect_of df p = Some rc →
  in_rect rc (pos_row p) (pos_col p).
Proof.
  intros Hp Hrc. pose proof (locate_table_titles_ok df) as [_ Hok].
  destruct (Hok p Hp) as [Hr Hc].
  destruct (rect_of_spec df p Hp) as (bottom & [lft rgt] & Heq & Hb & Hlr).
  rewrite Heq in Hrc. simplify_eq. simpl in *.
  pose proof (is_next_above_gt _ _ _ _ Hr Hb).
  case_bool_decide.
  - destruct Hlr as [-> Hnext]. pose proof (is_next_above_gt _ _ _ _ Hc Hnext). lia.
  - simplify_eq. lia.
Qed.

(** The rectangle of an anchor ends before every later anchor row and, on
    its own row, before every title column to its right. *)
Lemma rect_of_before df p q rc1 rc2 :
  let tp := locate_table_titles df in
  p ∈ tp → q ∈ tp → cell_lt (pos_cell p) (pos_cell q) →
  rect_of df p = Some rc1 → rect_of df q = Some rc2 →
  rects_disjoint rc1 rc2.
Proof.
  intros tp Hp Hq Hlt H1 H2.
  destruct (rect_of_spec df p Hp) as (b1 & [l1 r1] & Heq1 & Hb1 & Hlr1).
  destruct (rect_of_spec df q Hq) as (b2 & [l2 r2] & Heq2 & Hb2 & Hlr2).
  fold tp in Hb1, Hb2, Hlr1, Hlr2.
  rewrite Heq1 in H1. rewrite Heq2 in H2. simplify_eq. simpl in *.
  intros r c [(Hr1 & Hr1' & Hc1 & Hc1') (Hr2 & Hr2' & Hc2 & Hc2')].
  destruct p as [[pr pc] pt], q as [[qr qc] qt].
  unfold cell_lt, pos_cell, pos_row, pos_col in *. simpl in *.
  destruct Hlt as [Hrow|[<- Hcol]].
  - (* different rows: the earlier rectangle ends at or before the later row *)
    assert (b1 ≤ qr); [|lia].
    destruct Hb1 as [(_ & _ & Hmin)|(_ & Hmax)].
    + apply Hmin; [|done]. apply list_elem_of_fmap. by exists (qr, qc, qt).
    + assert (qr ≤ pr); [|lia]. apply Hmax. apply list_elem_of_fmap.
      by exists (qr, qc, qt).
  - (* same row: the earlier segment ends at or before the later column *)
    assert (pc ∈ cols_on_row tp pr) as Hpc
      by (apply elem_of_cols_on_row; by exists (pr, pc, pt)).
    assert (qc ∈ cols_on_row tp pr) as Hqc
      by (apply elem_of_cols_on_row; by exists (pr, qc, qt)).
    assert (1 < length (cols_on_row tp pr)) as Hmany
      by (eapply (length_gt_1_of_two _ pc qc); [done..|lia]).
    rewrite bool_decide_true in Hlr1, Hlr2 by done.
    destruct Hlr1 as [-> Hn1]. destruct Hlr2 as [-> Hn2].
    assert (r1 ≤ qc); [|lia].
    destruct Hn1 as [(_ & _ & Hmin)|(_ & Hmax)].
    + by apply Hmin.
    + assert (qc ≤ pc); [|lia]. by apply Hmax.
Qed.

Lemma rects_disjoint_sym rc1 rc2 : rects_disjoint rc1 rc2 → rects_disjoint rc2 rc1.
Proof. intros H r c [? ?]. by apply (H r c). Qed.

Lemma cell_lt_total (a b : nat * nat) : a ≠ b → cell_lt a b ∨ cell_lt b a.
Proof.
  destruct a as [a1 a2], b as [b1 b2]. unfold cell_lt. simpl. intros Hne.
  destruct (Nat.lt_total a1 b1) as [?|[->|?]]; [by left; left| |by right; left].
  destruct (Nat.lt_total a2 b2) as [?|[->|?]]; [by left; right|done|by right; right].
Qed.

(** The rectangles of two different anchors share no cell. *)
Lemma rect_of_disjoint df p q rc1 rc2 :
  let tp := locate_table_titles df in
  p ∈ tp → q ∈ tp → p ≠ q →
  rect_of df p = Some rc1 → rect_of df q = Some rc2 →
  rects_disjoint rc1 rc2.
Proof.
  intros tp Hp Hq Hne H1 H2.
  assert (pos_cell p ≠ pos_cell q) as Hcell.
  { intros Heq. apply Hne. eapply anchors_ok_inj; [apply locate_table_titles_ok|done..]. }
  destruct (cell_lt_total _ _ Hcell).
  - by apply (rect_of_before df p q).
  - apply rects_disjoint_sym. by apply (rect_of_before df q p).
Qed.






(** ** The used-cell mask *)

Lemma mask_grows_refl P used : mask_grows P used used.
Proof. split_and!; [done|done|]. intros r c ?. by left. Qed.

Lemma mask_grows_trans (P : nat → nat → Prop) u1 u2 u3 :
  mask_grows P u1 u2 → mask_grows P u2 u3 → mask_grows P u1 u3.
Proof.
  intros (Hl1 & Hf1 & Hu1) (Hl2 & Hf2 & Hu2). split_and!.
  - congruence.
  - intros n Hn. by apply Hf2, Hf1.
  - intros r c Hrc. destruct (Hu2 r c Hrc) as [H2|HP]; [by apply Hu1 | by right].
Qed.

Lemma mask_grows_weaken (P Q : nat → nat → Prop) u1 u2 :
  (∀ r c, P r c → Q r c) → mask_grows P u1 u2 → mask_grows Q u1 u2.
Proof.
  intros HPQ (Hl & Hf & Hu). split_and!; [done..|].
  intros r c Hrc. destruct (Hu r c Hrc); [by left | right; by apply HPQ].
Qed.

Lemma mask_grows_foldl (P : nat → nat → Prop)
    (f : list (list bool) → nat → list (list bool)) (l : list nat) used :
  (∀ u x, x ∈ l → mask_grows P u (f u x)) →
  mask_grows P used (foldl f used l).
Proof.
  revert used. induction l as [|x l IH]; intros used Hf; simpl.
  - apply mask_grows_refl.
  - eapply mask_grows_trans.
    + apply Hf. by left.
    + apply IH. intros u y Hy. apply Hf. by right.
Qed.

(** Setting one cell of the mask. *)
Lemma mask_grows_set used rr cc :
  rr < length used →
  mask_grows (λ r c, r = rr ∧ c = cc) used
    (<[rr := <[cc := true]> (used !!! rr)]> used).
Proof.
  intros Hlt. destruct (lookup_lt_is_Some_2 used rr Hlt) as [row0 Hrow0].
  rewrite (list_lookup_total_correct _ _ _ Hrow0).
  split_and!.
  - by rewrite length_insert.
  - intros n Hn. apply Forall_insert; [done|]. rewrite length_insert.
    rewrite Forall_forall in Hn. apply Hn. by eapply list_elem_of_lookup_2.
  - intros r c (row & Hrow & Hc).
    destruct (decide (r = rr)) as [->|Hne].
    + rewrite list_lookup_insert_eq in Hrow by done. simplify_eq.
      destruct (decide (c = cc)) as [->|Hnc]; [by right|].
      rewrite list_lookup_insert_ne in Hc by done. left. by exists row0.
    + rewrite list_lookup_insert_ne in Hrow by done. left. by exists row.
Qed.

Lemma mark_used_grows used top bottom left_ right_ :
  mask_grows (λ r c, in_rect (top, bottom, left_, right_) r c) used
    (mark_used used top bottom left_ right_).
Proof.
  unfold mark_used. apply mask_grows_foldl. intros u rr Hrr.
  apply elem_of_seq in Hrr. apply mask_grows_foldl. intros u' cc Hcc.
  apply elem_of_seq in Hcc. case_bool_decide as Hguard.
  - eapply mask_grows_weaken; [|apply mask_grows_set; tauto].
    intros r c [-> ->]. simpl. lia.
  - apply mask_grows_refl.
Qed.

(** ** Names and counters *)

Lemma count_title_app T l1 l2 :
  count_title T (l1 ++ l2) = count_title T l1 + count_title T l2.
Proof. unfold count_title. by rewrite filter_app, length_app. Qed.

Lemma count_title_singleton T p :
  count_title T [p] = if decide (pos_title p = T) then 1 else 0.
Proof.
  unfold count_title. case_decide.
  - by rewrite filter_cons_True.
  - by rewrite filter_cons_False.
Qed.

Lemma occ_before_app done p rest :
  p ∉ done → occ_before (done ++ p :: rest) p = count_title (pos_title p) done.
Proof.
  induction done as [|q done IH]; intros Hp; simpl.
  - by rewrite decide_True.
  - apply not_elem_of_cons in Hp as [Hne Hp].
    rewrite decide_False by done. rewrite IH by done.
    change (q :: done) with ([q] ++ done).
    rewrite count_title_app, count_title_singleton. done.
Qed.

Lemma resolve_title_spec (tc : gmap string nat) (T : string) (k : nat) :
  tc !! T = match k with 0 => None | S j => Some j end →
  resolve_title tc T = (<[T := k]> tc, name_of T k).
Proof.
  intros Hk. unfold resolve_title. rewrite Hk. destruct k as [|j]; [done|].
  by rewrite Nat.add_1_r.
Qed.

Lemma tables_of_log_snoc df log e :
  tables_of_log df (log ++ [e]) = dict_set e.1.2 (block_of df e.2) (tables_of_log df log).
Proof. unfold tables_of_log. by rewrite foldl_snoc. Qed.

(** ** The main loop of the extractor *)

Lemma ft_inv_init df : ft_inv df [] (ft_init (length (rows df)) (ncols df)).
Proof.
  unfold ft_inv, ft_init. simpl. split_and!.
  - by rewrite length_replicate.
  - apply Forall_replicate. by rewrite length_replicate.
  - intros r c (row & Hrow & Hc).
    apply lookup_replicate in Hrow as [-> _].
    apply lookup_replicate in Hc as [? _]. done.
  - done.
  - intros T. by rewrite lookup_empty.
  - done.
Qed.

Local Opaque extract_table_block.

(** One iteration never raises, never finds its anchor already claimed,
    and re-establishes the invariant. *)
Lemma ft_step_inv df done p rest st :
  let tp := locate_table_titles df in
  tp = done ++ p :: rest → ft_inv df done st →
  ∃ st', ft_step df (group_titles_by_row tp)
           (calculate_row_boundaries tp (length (rows df))) st p = Some st' ∧
         ft_inv df (done ++ [p]) st'.
Proof.
  intros tp Htp (Hlen & Hrows & Hused & Hlog & Hcnt & Htab).
  assert (p ∈ tp) as Hp by (rewrite Htp; apply elem_of_app; right; by left).
  assert (NoDup tp) as Hnd.
  { eapply NoDup_fmap_1. apply (locate_table_titles_ok df). }
  assert (p ∉ done) as Hpd.
  { rewrite Htp in Hnd. apply NoDup_app in Hnd as (_ & Hdis & _).
    intros Hin. apply (Hdis p Hin). by left. }
  destruct (proj2 (locate_table_titles_ok df) p Hp) as [Hr Hc].
  destruct (rect_of_is_Some df p Hp) as [rc Hrc].
  pose proof (rect_of_contains df p rc Hp Hrc) as Hown.
  destruct (rect_of_unfold df p rc Hrc) as (bottom & [lft rgt] & -> & Hb & Hlr).
  fold tp in Hb, Hlr. simpl in Hrc, Hown.
  assert (occ_before tp p = count_title (pos_title p) done) as Hocc
    by (rewrite Htp; by apply occ_before_app).
  assert (log_entry df p =
          if bool_decide (keepable (block_of df (pos_row p, bottom, lft, rgt)))
          then Some (p, name_of (pos_title p) (count_title (pos_title p) done),
                     (pos_row p, bottom, lft, rgt))
          else None) as Hentry.
  { unfold log_entry. rewrite Hrc. simpl. fold tp. by rewrite Hocc. }
  destruct p as [[r c] T]. unfold pos_row, pos_col, pos_title in *. simpl in *.
  unfold ft_step, shape.
  destruct (lookup_lt_is_Some_2 (already_used st) r) as [row Hrow]; [lia|].
  rewrite Hrow. simpl.
  destruct (lookup_lt_is_Some_2 row c) as [flag Hflag].
  { rewrite Forall_forall in Hrows. rewrite (Hrows row); [done|].
    by eapply list_elem_of_lookup_2. }
  rewrite Hflag. simpl. destruct flag.
  { exfalso. destruct (Hused r c) as (q & rc' & Hq & Hrc' & Hin); [by exists row|].
    assert (q ∈ tp) as Hqtp by (rewrite Htp; apply elem_of_app; by left).
    assert (q ≠ (r, c, T)) as Hne by (intros ->; done).
    apply (rect_of_disjoint df q (r, c, T) rc' _ Hqtp Hp Hne Hrc' Hrc r c).
    by split. }
  rewrite (resolve_title_spec _ T (count_title T done)) by apply Hcnt.
  rewrite Hb. simpl. rewrite Hlr. simpl.
  assert (∀ T', <[T := count_title T done]> (title_counts st) !! T' =
                match count_title T' (done ++ [(r, c, T)]) with
                | 0 => None
                | S k => Some k
                end) as Hcnt'.
  { intros T'. rewrite count_title_app, count_title_singleton. simpl.
    destruct (decide (T = T')) as [->|Hne].
    - rewrite lookup_insert_eq. by rewrite Nat.add_1_r.
    - rewrite lookup_insert_ne by done. rewrite Nat.add_0_r. apply Hcnt. }
  rewrite (bool_decide_ext _ (keepable (extract_table_block df r bottom lft rgt)))
    by done.
  assert (omap (log_entry df) (done ++ [(r, c, T)]) =
          omap (log_entry df) done ++
          if bool_decide (keepable (extract_table_block df r bottom lft rgt))
          then [(r, c, T, name_of T (count_title T done), (r, bottom, lft, rgt))]
          else []) as Hlog'.
  { rewrite omap_app. f_equal. cbn [omap list_omap]. rewrite Hentry.
    by case_bool_decide. }
  case_bool_decide as Hkeep.
  - eexists. split; [done|]. unfold ft_inv. cbn [already_used emitted title_counts
      extracted_tables].
    pose proof (mark_used_grows (already_used st) r bottom lft rgt)
      as (Hl' & Hf' & Hu').
    split_and!.
    + congruence.
    + by apply Hf'.
    + intros r' c' Hrc'. destruct (Hu' r' c' Hrc') as [Hold|Hnew].
      * destruct (Hused r' c' Hold) as (q & rc' & Hq & ? & ?).
        exists q, rc'. split_and!; [|done..]. apply elem_of_app. by left.
      * exists (r, c, T), (r, bottom, lft, rgt). split_and!; [|done..].
        apply elem_of_app. right. by left.
    + rewrite Hlog. symmetry. exact Hlog'.
    + done.
    + rewrite tables_of_log_snoc. by rewrite Htab.
  - eexists. split; [done|]. unfold ft_inv. cbn [already_used emitted title_counts
      extracted_tables].
    split_and!; [done|done| |rewrite Hlog, <- (app_nil_r (omap _ done)); symmetry; exact Hlog'|done|done].
    intros r' c' Hrc'. destruct (Hused r' c' Hrc') as (q & rc' & Hq & ? & ?).
    exists q, rc'. split_and!; [|done..]. apply elem_of_app. by left.
Qed.

Local Transparent extract_table_block.

Lemma ft_loop_inv df rest done st :
  let tp := locate_table_titles df in
  tp = done ++ rest → ft_inv df done st →
  ∃ st', ft_loop df (group_titles_by_row tp)
           (calculate_row_boundaries tp (length (rows df))) st rest = Some st' ∧
         ft_inv df tp st'.
Proof.
  intros tp. revert done st. induction rest as [|p rest IH]; intros done st Htp Hinv.
  - rewrite app_nil_r in Htp. subst done. by exists st.
  - destruct (ft_step_inv df done p rest st Htp Hinv) as (st1 & Hstep & Hinv1).
    fold tp in Hstep. cbn [ft_loop]. rewrite Hstep. simpl.
    apply (IH (done ++ [p])); [|done]. by rewrite <- app_assoc.
Qed.

(** [find_tables_in_spreadsheet] never raises, and its final state is the
    one the invariant describes. *)
Lemma find_tables_run_inv df :
  ∃ st, find_tables_run df = Some st ∧ ft_inv df (locate_table_titles df) st.
Proof.
  unfold find_tables_run, shape.
  apply (ft_loop_inv df (locate_table_titles df) []); [done|].
  apply ft_inv_init.
Qed.

(** ** Names are unambiguous *)

Lemma append_char_inj (s1 s2 : string) (c : ascii) :
  s1 +:+ String c "" = s2 +:+ String c "" → s1 = s2.
Proof.
  revert s2. induction s1 as [|a s1 IH]; intros [|b s2]; simpl; intros H.
  - done.
  - simplify_eq. by destruct s2.
  - simplify_eq. by destruct s1.
  - simplify_eq. f_equal. by apply IH.
Qed.

Lemma to_uint_nonnil (n : nat) : Nat.to_uint n ≠ Decimal.Nil.
Proof.
  intros H. pose proof (Unsigned.to_of (Nat.to_uint n)) as E.
  rewrite Unsigned.of_to, H in E. discriminate E.
Qed.

Lemma str_nat_inj (a b : nat) : str_nat a = str_nat b → a = b.
Proof.
  unfold str_nat. intros H. apply Unsigned.to_uint_inj.
  pose proof (NilZero.usu _ (to_uint_nonnil a)) as Ha.
  pose proof (NilZero.usu _ (to_uint_nonnil b)) as Hb.
  rewrite H in Ha. congruence.
Qed.

Ltac catalog_cases H :=
  unfold TABLE_TITLES in H;
  repeat (apply elem_of_cons in H as [->|H]);
  [..|by apply elem_of_nil in H].

(** No catalog title is another catalog title followed by a suffix
    [" (n)"], so a name determines its base title and its number. *)
Lemma name_of_inj T T' k k' :
  T ∈ TABLE_TITLES → T' ∈ TABLE_TITLES →
  name_of T k = name_of T' k' → T = T' ∧ k = k'.
Proof.
  intros HT HT'. destruct k as [|k], k' as [|k']; cbn [name_of].
  - by intros ->.
  - catalog_cases HT; catalog_cases HT'; simpl; intros H; discriminate H.
  - catalog_cases HT; catalog_cases HT'; simpl; intros H; discriminate H.
  - catalog_cases HT; catalog_cases HT'; simpl; intros H; try discriminate H;
      (split; [done|]); simplify_eq.
    all: match goal with H : _ +:+ ")" = _ +:+ ")" |- _ =>
           apply append_char_inj, str_nat_inj in H end; done.
Qed.

Lemma occ_before_inj tp p q :
  p ∈ tp → q ∈ tp → pos_title p = pos_title q →
  occ_before tp p = occ_before tp q → p = q.
Proof.
  induction tp as [|x tp IH]; intros Hp Hq Ht Hocc; [by apply elem_of_nil in Hp|].
  cbn [occ_before] in Hocc.
  destruct (decide (x = p)) as [Hxp|Hxp]; destruct (decide (x = q)) as [Hxq|Hxq].
  - congruence.
  - subst x. rewrite decide_True in Hocc by done. lia.
  - subst x. rewrite decide_True in Hocc by done. lia.
  - apply elem_of_cons in Hp as [Hp|Hp]; [congruence|].
    apply elem_of_cons in Hq as [Hq|Hq]; [congruence|].
    apply IH; [done..|]. rewrite Ht in Hocc. lia.
Qed.

(** ** The log and the dictionary *)

Lemma log_entry_Some df p e :
  log_entry df p = Some e →
  ∃ rc, e = (p, name_of (pos_title p) (occ_before (locate_table_titles df) p), rc) ∧
        rect_of df p = Some rc ∧ keepable (block_of df rc).
Proof.
  unfold log_entry. destruct (rect_of df p) as [rc|]; [|done]. simpl.
  case_bool_decide; [|done]. intros [= <-]. by exists rc.
Qed.

Lemma log_entry_keepable df p :
  is_Some (log_entry df p) ↔ keepable_at df p.
Proof.
  unfold log_entry, keepable_at. split.
  - intros [e He]. destruct (rect_of df p) as [rc|]; [|done]. simpl in He.
    case_bool_decide; [|done]. by exists rc.
  - intros (rc & -> & Hk). simpl. rewrite bool_decide_true by done. eauto.
Qed.

Lemma elem_of_log df (l : list position) e :
  e ∈ omap (log_entry df) l ↔ ∃ p, p ∈ l ∧ log_entry df p = Some e.
Proof. apply list_elem_of_omap. Qed.

Lemma log_anchors df (l : list position) :
  (λ e, e.1.1) <$> omap (log_entry df) l = filter (λ p, is_Some (log_entry df p)) l.
Proof.
  induction l as [|p l IH]; [done|]. cbn [omap list_omap].
  destruct (log_entry df p) as [e|] eqn:He.
  - rewrite filter_cons_True by (by rewrite He). rewrite fmap_cons. f_equal; [|done].
    apply log_entry_Some in He as (rc & -> & _). done.
  - rewrite filter_cons_False; [done|]. rewrite He. by intros [? ?].
Qed.

Lemma log_names_NoDup df :
  NoDup ((λ e : position * string * rect, e.1.2)
           <$> omap (log_entry df) (locate_table_titles df)).
Proof.
  set (tp := locate_table_titles df).
  assert (NoDup tp) as Hnd
    by (eapply NoDup_fmap_1; apply (locate_table_titles_ok df)).
  assert (∀ p, p ∈ tp → pos_title p ∈ TABLE_TITLES) as Htitle.
  { intros p Hp. apply elem_of_locate_table_titles in Hp. tauto. }
  assert (∀ l, l ⊆ tp → NoDup l →
            NoDup ((λ e : position * string * rect, e.1.2)
                     <$> omap (log_entry df) l)) as Hgen; [|by apply Hgen].
  induction l as [|p l IH]; intros Hsub Hl; [constructor|].
  apply NoDup_cons in Hl as [Hpl Hl]. simpl.
  assert (l ⊆ tp) as Hsub' by set_solver.
  destruct (log_entry df p) as [e|] eqn:He; [|by apply IH].
  rewrite fmap_cons. apply NoDup_cons. split; [|by apply IH].
  intros Hin. apply list_elem_of_fmap in Hin as (e' & Hname & He').
  apply elem_of_log in He' as (q & Hq & Hqe).
  apply log_entry_Some in He as (rc & -> & _).
  apply log_entry_Some in Hqe as (rc' & -> & _). simpl in Hname.
  assert (p ∈ tp) as Hp by set_solver. assert (q ∈ tp) as Hqtp by set_solver.
  apply name_of_inj in Hname as [Ht Hocc]; [|by apply Htitle..].
  assert (p = q) by by apply (occ_before_inj tp). by subst.
Qed.

Lemma dict_set_fresh {V} (k : string) (v : V) (d : list (string * V)) :
  k ∉ dict_keys d → dict_set k v d = d ++ [(k, v)].
Proof.
  unfold dict_keys. induction d as [|[k' v'] d IH]; simpl; intros Hk; [done|].
  apply not_elem_of_cons in Hk as [Hne Hk].
  rewrite decide_False by done. by rewrite IH.
Qed.

Lemma tables_of_log_fmap df (log : list (position * string * rect)) :
  NoDup ((λ e : position * string * rect, e.1.2) <$> log) →
  tables_of_log df log = (λ e, (e.1.2, block_of df e.2)) <$> log.
Proof.
  induction log as [|e log IH] using rev_ind; intros Hnd; [done|].
  rewrite fmap_app in Hnd. apply NoDup_app in Hnd as (Hnd & Hdis & _).
  rewrite tables_of_log_snoc, IH by done. rewrite fmap_app. simpl.
  apply dict_set_fresh. unfold dict_keys. rewrite <- list_fmap_compose.
  intros Hin. apply (Hdis _ Hin). by left.
Qed.

Lemma dict_get_fmap_NoDup {A V} (name : A → string) (val : A → V) (l : list A) (e : A) :
  NoDup (name <$> l) → e ∈ l →
  dict_get (name e) ((λ x, (name x, val x)) <$> l) = Some (val e).
Proof.
  induction l as [|x l IH]; intros Hnd He; [by apply elem_of_nil in He|].
  rewrite fmap_cons in Hnd. apply NoDup_cons in Hnd as [Hx Hnd]. simpl.
  apply elem_of_cons in He as [->|He]; [by rewrite decide_True|].
  rewrite decide_False; [by apply IH|].
  intros Heq. apply Hx. rewrite Heq. apply list_elem_of_fmap. by exists e.
Qed.

(** The final state of [find_tables_in_spreadsheet]: the log lists, in
    anchor order, the anchors whose block passes the size test, and the
    returned dictionary holds one table per log entry, in the same order. *)
Lemma find_tables_run_spec df :
  ∃ st, find_tables_run df = Some st ∧
        emitted st = omap (log_entry df) (locate_table_titles df) ∧
        extracted_tables st = (λ e, (e.1.2, block_of df e.2)) <$> emitted st.
Proof.
  destruct (find_tables_run_inv df) as (st & Hrun & _ & _ & _ & Hlog & _ & Htab).
  exists st. split_and!; [done..|].
  rewrite Htab. apply tables_of_log_fmap. rewrite Hlog. apply log_names_NoDup.
Qed.

Lemma elem_of_emitted df e :
  e ∈ omap (log_entry df) (locate_table_titles df) →
  e.1.1 ∈ locate_table_titles df ∧ rect_of df e.1.1 = Some e.2 ∧
  keepable (block_of df e.2) ∧
  e.1.2 = name_of (pos_title e.1.1) (occ_before (locate_table_titles df) e.1.1).
Proof.
  intros He. apply elem_of_log in He as (p & Hp & He).
  apply log_entry_Some in He as (rc & -> & Hrc & Hk). done.
Qed.

Lemma log_anchors_NoDup df :
  NoDup ((λ e : position * string * rect, e.1.1)
           <$> omap (log_entry df) (locate_table_titles df)).
Proof.
  rewrite log_anchors. apply NoDup_filter.
  eapply NoDup_fmap_1. apply (locate_table_titles_ok df).
Qed.

(** C1, as amended: [find_tables_in_spreadsheet] never raises, and every
    block it emits is the extracted block of an anchor's rectangle, fully
    blank rows and columns dropped, with at least 2 rows and at least 2
    columns: blocks that fail this test are not emitted.  The test is made
    before [clean_up_table] and is not repeated after it. *)
Theorem emitted_blocks_pass_size_test (df : DataFrame) :
  ∃ tables, find_tables_in_spreadsheet df = Some tables ∧
    ∀ name block, (name, block) ∈ tables →
      2 ≤ length (rows block) ∧ 2 ≤ ncols block ∧
      ∃ p rc, p ∈ locate_table_titles df ∧ rect_of df p = Some rc ∧
              block = block_of df rc.
Proof.
  destruct (find_tables_run_spec df) as (st & Hrun & Hlog & Htab).
  exists (extracted_tables st). split.
  - unfold find_tables_in_spreadsheet. by rewrite Hrun.
  - intros name block Hin. rewrite Htab in Hin.
    apply list_elem_of_fmap in Hin as (e & Heq & He). simplify_eq.
    rewrite Hlog in He. apply elem_of_emitted in He as (Hp & Hrc & [Hk1 Hk2] & _).
    split_and!; [done..|]. by exists e.1.1, e.2.
Qed.

(** C1, as stated, fails: the title row of this sheet is 80% blank, so
    [clean_up_table] drops it from the emitted 2 × 5 block, and the table
    in the final mapping has a single row. *)
Lemma cleaned_table_with_one_row :
  process_excel_file (λ _, Some sheet_sparse_title) [] =
    Some [("DISCOUNT RATE", [["a"; "b"; "c"; "d"; "e"]])] ∧
  ¬ (2 ≤ length [["a"; "b"; "c"; "d"; "e"]]).
Proof. split; [by vm_compute | simpl; lia]. Qed.

(** C3: for every grid, the tables returned by
    [find_tables_in_spreadsheet] are the blocks of the logged rectangles,
    one per log entry, and the source rectangles of any two distinct
    entries (which carry different names) share no cell. *)
Theorem emitted_rectangles_disjoint (df : DataFrame) :
  ∃ st, find_tables_run df = Some st ∧
    find_tables_in_spreadsheet df =
      Some ((λ e, (e.1.2, block_of df e.2)) <$> emitted st) ∧
    ∀ i j e1 e2, i ≠ j →
      emitted st !! i = Some e1 → emitted st !! j = Some e2 →
      e1.1.2 ≠ e2.1.2 ∧ rects_disjoint e1.2 e2.2.
Proof.
  destruct (find_tables_run_spec df) as (st & Hrun & Hlog & Htab).
  exists st. split_and!; [done| |].
  - unfold find_tables_in_spreadsheet. by rewrite Hrun, <- Htab.
  - intros i j e1 e2 Hij H1 H2. rewrite Hlog in H1, H2. split.
    + intros Heq. apply Hij.
      eapply (NoDup_lookup _ i j e1.1.2 (log_names_NoDup df)).
      * by rewrite list_lookup_fmap, H1.
      * by rewrite list_lookup_fmap, H2, Heq.
    + assert (e1.1.1 ≠ e2.1.1) as Hne.
      { intros Heq. apply Hij.
        eapply (NoDup_lookup _ i j e1.1.1 (log_anchors_NoDup df)).
        - by rewrite list_lookup_fmap, H1.
        - by rewrite list_lookup_fmap, H2, Heq. }
      apply list_elem_of_lookup_2 in H1, H2.
      apply elem_of_emitted in H1 as (Hp1 & Hrc1 & _).
      apply elem_of_emitted in H2 as (Hp2 & Hrc2 & _).
      by apply (rect_of_disjoint df e1.1.1 e2.1.1).
Qed.

(** ** Anchor order and the numbering of duplicate titles *)

#[global] Instance anchor_lt_trans : Transitive anchor_lt.
Proof.
  intros [[r1 c1] t1] [[r2 c2] t2] [[r3 c3] t3].
  unfold anchor_lt, cell_lt, pos_cell. simpl. lia.
Qed.

Lemma Sorted_pos_le_anchor_lt (l : list position) :
  Sorted pos_le l → NoDup (pos_cell <$> l) → Sorted anchor_lt l.
Proof.
  induction 1 as [|p l Hs IH Hhd]; intros Hnd; [constructor|].
  rewrite fmap_cons in Hnd. apply NoDup_cons in Hnd as [Hp Hnd].
  constructor; [by apply IH|].
  destruct Hhd as [|q l Hpq]; constructor.
  assert (pos_cell p ≠ pos_cell q) as Hne.
  { intros Heq. apply Hp. rewrite Heq, fmap_cons. by left. }
  destruct p as [[r1 c1] t1], q as [[r2 c2] t2].
  unfold pos_le, anchor_lt, cell_lt, pos_cell, pos_row, pos_col in *. simpl in *.
  destruct Hpq as [?|[-> [?|[-> _]]]]; [by left | by right | done].
Qed.

(** The occurrences come in row-major order. *)
Lemma locate_table_titles_row_major df :
  StronglySorted anchor_lt (locate_table_titles df).
Proof.
  apply Sorted_StronglySorted; [apply _|].
  apply Sorted_pos_le_anchor_lt; [apply locate_table_titles_sorted|].
  apply (locate_table_titles_ok df).
Qed.

Lemma StronglySorted_filter {A} (R : relation A) (P : A → Prop)
    `{!∀ x, Decision (P x)} (l : list A) :
  StronglySorted R l → StronglySorted R (filter P l).
Proof.
  induction 1 as [|x l Hs IH Hall]; [constructor|].
  destruct (decide (P x)).
  - rewrite filter_cons_True by done. constructor; [done|].
    rewrite Forall_forall in Hall. apply Forall_forall. intros y Hy.
    apply list_elem_of_filter in Hy as [_ Hy]. by apply Hall.
  - by rewrite filter_cons_False.
Qed.

Lemma filter_log_by_title df T (l : list position) :
  filter (λ e : position * string * rect, pos_title e.1.1 = T)
         (omap (log_entry df) l) =
  omap (log_entry df) (filter (λ p, pos_title p = T) l).
Proof.
  induction l as [|p l IH]; [done|]. cbn [omap list_omap].
  destruct (log_entry df p) as [e|] eqn:He.
  - pose proof He as He'. apply log_entry_Some in He' as (rc & -> & _).
    destruct (decide (pos_title p = T)) as [Ht|Ht].
    + rewrite !filter_cons_True by done. cbn [omap list_omap].
      by rewrite He, IH.
    + rewrite !filter_cons_False by done. done.
  - destruct (decide (pos_title p = T)) as [Ht|Ht].
    + rewrite filter_cons_True by done. cbn [omap list_omap]. by rewrite He.
    + by rewrite filter_cons_False.
Qed.

Lemma occ_before_filter (tp : list position) (p : position) :
  occ_before tp p = occ_before (filter (λ q, pos_title q = pos_title p) tp) p.
Proof.
  induction tp as [|x tp IH]; [done|].
  destruct (decide (pos_title x = pos_title p)) as [Ht|Ht].
  - rewrite filter_cons_True by done. cbn [occ_before]. by rewrite IH.
  - rewrite filter_cons_False by done. cbn [occ_before].
    rewrite (decide_False (P := x = p)) by (intros ->; done).
    rewrite (decide_False (P := pos_title x = pos_title p)) by done.
    by rewrite IH.
Qed.

Lemma log_entry_keepable_at df p :
  keepable_at df p →
  ∃ rc, rect_of df p = Some rc ∧ keepable (block_of df rc) ∧
        log_entry df p =
          Some (p, name_of (pos_title p) (occ_before (locate_table_titles df) p), rc).
Proof.
  intros (rc & Hrc & Hk). exists rc. split_and!; [done..|].
  unfold log_entry. rewrite Hrc. simpl. by rewrite bool_decide_true.
Qed.

Lemma title_of_filtered (tp : list position) T l p :
  filter (λ q, pos_title q = T) tp = l → p ∈ l → p ∈ tp ∧ pos_title p = T.
Proof. intros <- Hp. apply list_elem_of_filter in Hp. tauto. Qed.

Lemma name_is_base_title df e T :
  T ∈ TABLE_TITLES →
  e ∈ omap (log_entry df) (locate_table_titles df) →
  ∀ k, e.1.2 = name_of T k →
       pos_title e.1.1 = T ∧ occ_before (locate_table_titles df) e.1.1 = k.
Proof.
  intros HT He k Hname.
  apply elem_of_emitted in He as (Hp & _ & _ & Heq).
  rewrite Heq in Hname. apply name_of_inj in Hname; [done| |done].
  apply elem_of_locate_table_titles in Hp. tauto.
Qed.

(** C5: when a catalog title [T] occurs exactly three times in a grid and
    each occurrence yields a block that passes the size test,
    [find_tables_in_spreadsheet] returns the dictionary of the logged
    tables, in which [T], [T (1)] and [T (2)] are the blocks of the
    first, second and third occurrence in row-major order; the log holds
    for [T] exactly these three tables, in that order, and no table of
    another title bears one of the three names. *)
Theorem three_occurrences_named_in_order (df : DataFrame) (T : string)
    (a0 a1 a2 : position) :
  filter (λ p, pos_title p = T) (locate_table_titles df) = [a0; a1; a2] →
  keepable_at df a0 → keepable_at df a1 → keepable_at df a2 →
  ∃ st rc0 rc1 rc2,
    find_tables_run df = Some st ∧
    find_tables_in_spreadsheet df = Some (extracted_tables st) ∧
    filter (λ e : position * string * rect, pos_title e.1.1 = T) (emitted st) =
      [(a0, T, rc0); (a1, T +:+ " (1)", rc1); (a2, T +:+ " (2)", rc2)] ∧
    anchor_lt a0 a1 ∧ anchor_lt a1 a2 ∧
    extracted_tables st = (λ e, (e.1.2, block_of df e.2)) <$> emitted st ∧
    (∀ e, e ∈ emitted st →
          e.1.2 ∈ [T; T +:+ " (1)"; T +:+ " (2)"] → pos_title e.1.1 = T) ∧
    rect_of df a0 = Some rc0 ∧ rect_of df a1 = Some rc1 ∧ rect_of df a2 = Some rc2 ∧
    dict_get T (extracted_tables st) = Some (block_of df rc0) ∧
    dict_get (T +:+ " (1)") (extracted_tables st) = Some (block_of df rc1) ∧
    dict_get (T +:+ " (2)") (extracted_tables st) = Some (block_of df rc2).
Proof.
  intros Hocc Hk0 Hk1 Hk2.
  set (tp := locate_table_titles df) in *.
  destruct (find_tables_run_spec df) as (st & Hrun & Hlog & Htab). fold tp in Hlog.
  destruct (title_of_filtered tp T _ a0 Hocc) as [Ha0 Ht0]; [set_solver|].
  destruct (title_of_filtered tp T _ a1 Hocc) as [Ha1 Ht1]; [set_solver|].
  destruct (title_of_filtered tp T _ a2 Hocc) as [Ha2 Ht2]; [set_solver|].
  assert (NoDup [a0; a1; a2]) as Hnd.
  { rewrite <- Hocc. apply NoDup_filter. eapply NoDup_fmap_1.
    apply (locate_table_titles_ok df). }
  assert (a0 ≠ a1 ∧ a0 ≠ a2 ∧ a1 ≠ a2) as (Hn01 & Hn02 & Hn12).
  { apply NoDup_cons in Hnd as [H0 Hnd]. apply NoDup_cons in Hnd as [H1 _].
    set_solver. }
  assert (StronglySorted anchor_lt [a0; a1; a2]) as Hsort.
  { rewrite <- Hocc. apply StronglySorted_filter, locate_table_titles_row_major. }
  assert (occ_before tp a0 = 0 ∧ occ_before tp a1 = 1 ∧ occ_before tp a2 = 2)
    as (Ho0 & Ho1 & Ho2).
  { rewrite (occ_before_filter tp a0), (occ_before_filter tp a1),
      (occ_before_filter tp a2), Ht0, Ht1, Ht2, Hocc. cbn [occ_before].
    split_and!; repeat case_decide; congruence || lia. }
  destruct (log_entry_keepable_at df a0 Hk0) as (rc0 & Hrc0 & _ & He0).
  destruct (log_entry_keepable_at df a1 Hk1) as (rc1 & Hrc1 & _ & He1).
  destruct (log_entry_keepable_at df a2 Hk2) as (rc2 & Hrc2 & _ & He2).
  fold tp in He0, He1, He2. rewrite Ht0, Ho0 in He0. rewrite Ht1, Ho1 in He1.
  rewrite Ht2, Ho2 in He2.
  assert (T ∈ TABLE_TITLES) as HT.
  { apply elem_of_locate_table_titles in Ha0. rewrite <- Ht0. tauto. }
  assert (NoDup ((λ e : position * string * rect, e.1.2) <$> emitted st)) as Hnames
    by (rewrite Hlog; apply log_names_NoDup).
  exists st, rc0, rc1, rc2. split_and!.
  - done.
  - unfold find_tables_in_spreadsheet. by rewrite Hrun.
  - rewrite Hlog, filter_log_by_title. fold tp. rewrite Hocc.
    cbn [omap list_omap]. by rewrite He0, He1, He2.
  - apply StronglySorted_inv in Hsort as [_ Hall].
    by apply Forall_cons in Hall as [? _].
  - apply StronglySorted_inv in Hsort as [Hsort _].
    apply StronglySorted_inv in Hsort as [_ Hall].
    by apply Forall_cons in Hall as [? _].
  - done.
  - intros e He Hname. rewrite Hlog in He.
    repeat (apply elem_of_cons in Hname as [Hname|Hname]).
    + by apply (name_is_base_title df e T HT He 0).
    + by apply (name_is_base_title df e T HT He 1).
    + by apply (name_is_base_title df e T HT He 2).
    + by apply elem_of_nil in Hname.
  - done.
  - done.
  - done.
  - rewrite Htab.
    apply (dict_get_fmap_NoDup (λ e : position * string * rect, e.1.2)
             (λ e, block_of df e.2) (emitted st) (a0, T, rc0)); [done|].
    rewrite Hlog. apply elem_of_log. by exists a0.
  - rewrite Htab.
    apply (dict_get_fmap_NoDup (λ e : position * string * rect, e.1.2)
             (λ e, block_of df e.2) (emitted st) (a1, T +:+ " (1)", rc1)); [done|].
    rewrite Hlog. apply elem_of_log. by exists a1.
  - rewrite Htab.
    apply (dict_get_fmap_NoDup (λ e : position * string * rect, e.1.2)
             (λ e, block_of df e.2) (emitted st) (a2, T +:+ " (2)", rc2)); [done|].
    rewrite Hlog. apply elem_of_log. by exists a2.
Qed.

Lemma count_title_all (T : string) (l : list position) :
  Forall (λ p, pos_title p = T) l → count_title T l = length l.
Proof. intros Hall. unfold count_title. by rewrite filter_all. Qed.

Lemma occ_before_lookup (l : list position) (i : nat) (a : position) :
  NoDup l → Forall (λ p, pos_title p = pos_title a) l → l !! i = Some a →
  occ_before l a = i.
Proof.
  intros Hnd Hall Hi.
  pose proof (take_drop_middle l i a Hi) as Hl.
  rewrite <- Hl in Hnd. apply NoDup_app in Hnd as (_ & Hdis & _).
  rewrite <- Hl at 1. rewrite occ_before_app by (intros Hin; apply (Hdis a Hin); by left).
  rewrite count_title_all by by apply Forall_take.
  rewrite length_take. apply lookup_lt_Some in Hi. lia.
Qed.

(** C10: the counter of a base title advances on every occurrence, kept
    or discarded: every table of the dictionary that
    [find_tables_in_spreadsheet] returns is named by the number of
    occurrences of its title before its anchor.  When the first
    occurrence of [T] is discarded by the size test, no table is named
    [T], and the occurrence number [k + 1], when it passes the test, is
    returned under the name [T (k + 1)]: [T (1)] only for the second
    occurrence. *)
Theorem discarded_occurrence_still_counts (df : DataFrame) (T : string)
    (a0 : position) (others : list position) :
  filter (λ p, pos_title p = T) (locate_table_titles df) = a0 :: others →
  ¬ keepable_at df a0 →
  ∃ st,
    find_tables_run df = Some st ∧
    find_tables_in_spreadsheet df = Some (extracted_tables st) ∧
    extracted_tables st = (λ e, (e.1.2, block_of df e.2)) <$> emitted st ∧
    (∀ e, e ∈ emitted st →
          e.1.2 = name_of (pos_title e.1.1)
                    (occ_before (locate_table_titles df) e.1.1)) ∧
    (T ∉ dict_keys (extracted_tables st)) ∧
    (∀ k a, others !! k = Some a → keepable_at df a →
       ∃ rc, rect_of df a = Some rc ∧
             (a, name_of T (S k), rc) ∈ emitted st ∧
             dict_get (name_of T (S k)) (extracted_tables st) = Some (block_of df rc) ∧
             ∀ e, e ∈ emitted st → e.1.1 = a → e.1.2 = name_of T (S k)).
Proof.
  intros Hocc Hk0.
  set (tp := locate_table_titles df) in *.
  destruct (find_tables_run_spec df) as (st & Hrun & Hlog & Htab). fold tp in Hlog.
  destruct (title_of_filtered tp T _ a0 Hocc) as [Ha0 Ht0]; [set_solver|].
  assert (NoDup (a0 :: others)) as Hnd.
  { rewrite <- Hocc. apply NoDup_filter. eapply NoDup_fmap_1.
    apply (locate_table_titles_ok df). }
  assert (occ_before tp a0 = 0) as Ho0.
  { rewrite (occ_before_filter tp a0), Ht0, Hocc. cbn [occ_before].
    by rewrite decide_True. }
  assert (T ∈ TABLE_TITLES) as HT.
  { apply elem_of_locate_table_titles in Ha0. rewrite <- Ht0. tauto. }
  assert (NoDup ((λ e : position * string * rect, e.1.2) <$> emitted st)) as Hnames
    by (rewrite Hlog; apply log_names_NoDup).
  exists st. split_and!; [done| |done| | |].
  - unfold find_tables_in_spreadsheet. by rewrite Hrun.
  - intros e He. rewrite Hlog in He. by apply elem_of_emitted in He as (_ & _ & _ & ?).
  - rewrite Htab. unfold dict_keys. rewrite <- list_fmap_compose.
    intros Hkey. apply list_elem_of_fmap in Hkey as (e & Hname & He).
    simpl in Hname. rewrite Hlog in He.
    destruct (name_is_base_title df e T HT He 0) as [Hte Hoe]; [done|].
    pose proof He as He'.
    apply elem_of_emitted in He' as (Hp & _ & _ & _). fold tp in Hp, Hoe.
    assert (e.1.1 = a0) as Hea0.
    { apply (occ_before_inj tp); [done..|congruence|congruence]. }
    apply Hk0. apply log_entry_keepable. apply elem_of_log in He as (p & _ & Hpe).
    pose proof Hpe as Hpe'. apply log_entry_Some in Hpe' as (rc & -> & _).
    simpl in Hea0. subst p. eauto.
  - intros k a Hka Hkeep.
    assert (a ∈ a0 :: others) as Hain
      by (right; by eapply list_elem_of_lookup_2).
    destruct (title_of_filtered tp T _ a Hocc Hain) as [Ha Hta].
    assert (occ_before tp a = S k) as Hoa.
    { rewrite (occ_before_filter tp a), Hta, Hocc.
      apply occ_before_lookup; [done| |done].
      rewrite <- Hocc. apply Forall_forall. intros q Hq.
      apply list_elem_of_filter in Hq as [Hq _]. congruence. }
    destruct (log_entry_keepable_at df a Hkeep) as (rc & Hrc & _ & He).
    fold tp in He. rewrite Hta, Hoa in He.
    assert ((a, name_of T (S k), rc) ∈ emitted st) as Hin.
    { rewrite Hlog. apply elem_of_log. by exists a. }
    exists rc. split_and!; [done|done| |].
    + rewrite Htab.
      by apply (dict_get_fmap_NoDup (λ e : position * string * rect, e.1.2)
                  (λ e, block_of df e.2) (emitted st) (a, name_of T (S k), rc)).
    + intros e He' Hea. rewrite Hlog in He'.
      apply elem_of_emitted in He' as (_ & _ & _ & Hname). fold tp in Hname.
      rewrite Hname, Hea, Hta, Hoa. done.
Qed.

(** The sheet of the claim's gloss, with the first two occurrences
    discarded: the occurrence that is kept is the third, and it is
    returned under the name [T (2)]; no table is named [T (1)]. *)
Lemma later_occurrence_named_by_position :
  ¬ keepable_at sheet_two_discarded (0, 0, "DISCOUNT RATE") ∧
  keepable_at sheet_two_discarded (2, 0, "DISCOUNT RATE") ∧
  find_tables_in_spreadsheet sheet_two_discarded =
    Some [("DISCOUNT RATE (2)", mkDF 2 [[Some "DISCOUNT RATE"; Some "2"];
                                        [Some "c"; Some "d"]])] ∧
  ∀ tables, find_tables_in_spreadsheet sheet_two_discarded = Some tables →
            "DISCOUNT RATE (1)" ∉ dict_keys tables.
Proof.
  split_and!.
  - intros (rc & Hrc & Hk). vm_compute in Hrc. simplify_eq.
    vm_compute in Hk. lia.
  - eexists. split; [by vm_compute | vm_compute; lia].
  - by vm_compute.
  - intros tables Ht. vm_compute in Ht. apply (inj Some) in Ht. subst tables.
    unfold dict_keys. simpl. apply not_elem_of_cons. split; [done|].
    apply not_elem_of_nil.
Qed.

Lemma sheet_thrice_titles :
  filter (λ p, pos_title p = "DISCOUNT RATE") (locate_table_titles sheet_thrice) =
    [(0, 0, "DISCOUNT RATE"); (2, 0, "DISCOUNT RATE"); (4, 0, "DISCOUNT RATE")].
Proof. by vm_compute. Qed.

Lemma sheet_thrice_keepable r :
  r ∈ [0; 2; 4] → keepable_at sheet_thrice (r, 0, "DISCOUNT RATE").
Proof.
  intros Hr. repeat (apply elem_of_cons in Hr as [->|Hr]);
    [..|by apply elem_of_nil in Hr];
    (eexists; split; [by vm_compute | vm_compute; lia]).
Qed.

Lemma three_occurrences_named_in_order_witness :
  ∃ st rc0 rc1 rc2,
    find_tables_run sheet_thrice = Some st ∧
    find_tables_in_spreadsheet sheet_thrice = Some (extracted_tables st) ∧
    filter (λ e : position * string * rect, pos_title e.1.1 = "DISCOUNT RATE")
           (emitted st) =
      [((0, 0, "DISCOUNT RATE"), "DISCOUNT RATE", rc0);
       ((2, 0, "DISCOUNT RATE"), "DISCOUNT RATE (1)", rc1);
       ((4, 0, "DISCOUNT RATE"), "DISCOUNT RATE (2)", rc2)] ∧
    anchor_lt (0, 0, "DISCOUNT RATE") (2, 0, "DISCOUNT RATE") ∧
    anchor_lt (2, 0, "DISCOUNT RATE") (4, 0, "DISCOUNT RATE") ∧
    extracted_tables st = (λ e, (e.1.2, block_of sheet_thrice e.2)) <$> emitted st ∧
    (∀ e, e ∈ emitted st →
          e.1.2 ∈ ["DISCOUNT RATE"; "DISCOUNT RATE (1)"; "DISCOUNT RATE (2)"] →
          pos_title e.1.1 = "DISCOUNT RATE") ∧
    rect_of sheet_thrice (0, 0, "DISCOUNT RATE") = Some rc0 ∧
    rect_of sheet_thrice (2, 0, "DISCOUNT RATE") = Some rc1 ∧
    rect_of sheet_thrice (4, 0, "DISCOUNT RATE") = Some rc2 ∧
    dict_get "DISCOUNT RATE" (extracted_tables st) = Some (block_of sheet_thrice rc0) ∧
    dict_get "DISCOUNT RATE (1)" (extracted_tables st)
      = Some (block_of sheet_thrice rc1) ∧
    dict_get "DISCOUNT RATE (2)" (extracted_tables st)
      = Some (block_of sheet_thrice rc2).
Proof.
  apply (three_occurrences_named_in_order sheet_thrice "DISCOUNT RATE"
           (0, 0, "DISCOUNT RATE") (2, 0, "DISCOUNT RATE") (4, 0, "DISCOUNT RATE")).
  - exact sheet_thrice_titles.
  - apply sheet_thrice_keepable. set_solver.
  - apply sheet_thrice_keepable. set_solver.
  - apply sheet_thrice_keepable. set_solver.
Defined.

Lemma sheet_first_discarded_titles :
  filter (λ p, pos_title p = "DISCOUNT RATE")
         (locate_table_titles sheet_first_discarded) =
    [(0, 0, "DISCOUNT RATE"); (1, 0, "DISCOUNT RATE")].
Proof. by vm_compute. Qed.

Lemma sheet_first_discarded_first :
  ¬ keepable_at sheet_first_discarded (0, 0, "DISCOUNT RATE").
Proof.
  intros (rc & Hrc & Hk). vm_compute in Hrc. simplify_eq.
  vm_compute in Hk. lia.
Qed.

Lemma sheet_first_discarded_second :
  keepable_at sheet_first_discarded (1, 0, "DISCOUNT RATE").
Proof. eexists. split; [by vm_compute | vm_compute; lia]. Qed.

Lemma discarded_occurrence_still_counts_witness :
  ∃ st rc,
    find_tables_run sheet_first_discarded = Some st ∧
    find_tables_in_spreadsheet sheet_first_discarded = Some (extracted_tables st) ∧
    ("DISCOUNT RATE" ∉ dict_keys (extracted_tables st)) ∧
    rect_of sheet_first_discarded (1, 0, "DISCOUNT RATE") = Some rc ∧
    ((1, 0, "DISCOUNT RATE"), "DISCOUNT RATE (1)", rc) ∈ emitted st ∧
    dict_get "DISCOUNT RATE (1)" (extracted_tables st)
      = Some (block_of sheet_first_discarded rc).
Proof.
  destruct (discarded_occurrence_still_counts sheet_first_discarded "DISCOUNT RATE"
              (0, 0, "DISCOUNT RATE") [(1, 0, "DISCOUNT RATE")]
              sheet_first_discarded_titles sheet_first_discarded_first)
    as (st & Hrun & Hret & _ & _ & Hbare & Hlater).
  destruct (Hlater 0 (1, 0, "DISCOUNT RATE") eq_refl sheet_first_discarded_second)
    as (rc & Hrc & Hlog & Hget & _).
  exists st, rc. split_and!; done.
Defined.

(** ** Blanks around a number *)

(** [float] skips the blanks of [str.strip] at both ends, but for the
    separators U+001C to U+001F, on which it raises. *)
Lemma py_float_blanks :
  py_float (String (ascii_of_nat 9) " 1.5 " +:+
            String (ascii_of_nat 194) (String (ascii_of_nat 160) ""))
    = Some 1.5%float ∧
  strip (String (ascii_of_nat 28) "1.5") = "1.5" ∧
  py_float (String (ascii_of_nat 28) "1.5") = None ∧
  py_float ("1.5" +:+ String (ascii_of_nat 31) "") = None.
Proof. by vm_compute. Qed.

(** ** Row sums *)

Lemma sum_cells_fold (float_of : string → option float) (cells : list string)
    (total : float) :
  foldl (λ total cell,
           match float_of cell with
           | Some v => (total + v)%float
           | None => total
           end) total cells =
  foldl PrimFloat.add total (omap float_of cells).
Proof.
  revert total. induction cells as [|c cells IH]; intros total; [done|].
  cbn [foldl omap list_omap]. destruct (float_of c); simpl; apply IH.
Qed.

Lemma omap_all_None {A B} (f : A → option B) (l : list A) :
  Forall (λ x, f x = None) l → omap f l = [].
Proof. induction 1 as [|x l Hx _ IH]; [done|]. cbn [omap list_omap]. by rewrite Hx. Qed.

(** C7, as amended: for every table row, the row-sum is the sum of the
    numeric-parseable cells among all cells except the first, rounded to
    4 decimal places ([round(total, 4)]); a non-numeric cell contributes
    nothing and raises no error.  The row
    [["Revenue"; "100"; "abc"; "50.5"]] sums to 150.5, and a row whose
    remaining cells are all non-numeric sums to 0. *)
Theorem row_sum_is_rounded_sum
    (float_of : string → option float) (round4 : float → float)
    (table_data : list (list string)) (row_idx : nat)
    (name : string) (cells : list string) :
  table_data !! row_idx = Some (name :: cells) →
  row_sum_at float_of round4 table_data row_idx =
    Some (round4 (foldl PrimFloat.add 0%float (omap float_of cells))) ∧
  (Forall (λ c, float_of c = None) cells →
   row_sum_at float_of round4 table_data row_idx = Some (round4 0%float)) ∧
  row_sum_at py_float py_round4 [["Revenue"; "100"; "abc"; "50.5"]] 0
    = Some 150.5%float ∧
  py_round4 0%float = 0%float.
Proof.
  intros Hrow.
  assert (row_sum_at float_of round4 table_data row_idx =
          Some (round4 (foldl PrimFloat.add 0%float (omap float_of cells)))) as Hsum.
  { unfold row_sum_at. rewrite Hrow. simpl. unfold sum_cells. simpl.
    by rewrite drop_0, sum_cells_fold. }
  split_and!; [done| |by vm_compute|by vm_compute].
  intros Hnone. by rewrite Hsum, omap_all_None.
Qed.

Lemma row_sum_is_rounded_sum_witness :
  row_sum_at py_float py_round4 [["Revenue"; "100"; "abc"; "50.5"]] 0 =
    Some (py_round4 (foldl PrimFloat.add 0%float
                       (omap py_float ["100"; "abc"; "50.5"]))).
Proof.
  exact (proj1 (row_sum_is_rounded_sum py_float py_round4
                  [["Revenue"; "100"; "abc"; "50.5"]] 0 "Revenue"
                  ["100"; "abc"; "50.5"] eq_refl)).
Defined.

(** C7, as stated, fails: the only numeric cell of this row parses to a
    positive number, which is the sum of the numeric-parseable cells, and
    the row-sum returned is 0, because the total is rounded to 4 decimal
    places. *)
Lemma row_sum_rounds_small_total_to_zero :
  let row := ["x"; "0.00004"] in
  sum_cells py_float row = foldl PrimFloat.add 0%float (omap py_float (drop 1 row)) ∧
  (0 <? sum_cells py_float row)%float = true ∧
  row_sum_at py_float py_round4 [row] 0 = Some 0%float.
Proof. by vm_compute. Qed.

(** * Further properties of [utils.py] *)

(** ** The title locator and grids without titles *)

(** X1: [locate_table_titles] returns exactly the cells of the grid whose
    stripped text is a catalog title, each with that text, and returns
    them in strict row-major order, so that no cell is listed twice. *)
Theorem locate_table_titles_exact (df : DataFrame) :
  (∀ r c t, (r, c, t) ∈ locate_table_titles df ↔
            r < length (rows df) ∧ c < ncols df ∧
            t = strip (str_cell (iat df r c)) ∧ t ∈ TABLE_TITLES) ∧
  StronglySorted anchor_lt (locate_table_titles df).
Proof.
  split; [|apply locate_table_titles_row_major].
  intros r c t. by rewrite elem_of_locate_table_titles.
Qed.

(** Blanks outside ASCII are stripped too: a title cell padded with a
    no-break space is an anchor, and its table is returned with the cell
    as it is in the sheet. *)
Lemma padded_title_is_located :
  locate_table_titles sheet_padded_title = [(0, 0, "DISCOUNT RATE")] ∧
  find_tables_in_spreadsheet sheet_padded_title =
    Some [("DISCOUNT RATE", sheet_padded_title)].
Proof. by vm_compute. Qed.

Lemma locate_table_titles_nil df :
  (∀ r c, r < length (rows df) → c < ncols df →
          strip (str_cell (iat df r c)) ∉ TABLE_TITLES) →
  locate_table_titles df = [].
Proof.
  intros Hno. destruct (locate_table_titles df) as [|p l] eqn:Hl; [done|].
  assert (p ∈ locate_table_titles df) as Hp by (rewrite Hl; by left).
  apply elem_of_locate_table_titles in Hp as (Hr & Hc & Ht & Hin).
  rewrite Ht in Hin. by apply Hno in Hin.
Qed.

(** X2: when no cell of the grid strips to a catalog title, segmentation
    finds no table: [find_tables_in_spreadsheet] and the whole pipeline
    return the empty mapping, without raising. *)
Theorem no_title_no_table (df : DataFrame) :
  (∀ r c, r < length (rows df) → c < ncols df →
          strip (str_cell (iat df r c)) ∉ TABLE_TITLES) →
  find_tables_in_spreadsheet df = Some [] ∧ process_grid df = Some [].
Proof.
  intros Hno. apply locate_table_titles_nil in Hno.
  assert (find_tables_in_spreadsheet df = Some []) as Hfind.
  { unfold find_tables_in_spreadsheet, find_tables_run, shape. by rewrite Hno. }
  split; [done|]. unfold process_grid. by rewrite Hfind.
Qed.

Lemma sheet_no_title_cells r c :
  r < length (rows sheet_no_title) → c < ncols sheet_no_title →
  strip (str_cell (iat sheet_no_title r c)) ∉ TABLE_TITLES.
Proof.
  simpl. intros Hr Hc.
  assert (r = 0 ∨ r = 1) as [-> | ->] by lia;
    (assert (c = 0 ∨ c = 1) as [-> | ->] by lia);
    apply (bool_decide_unpack _); by vm_compute.
Qed.

Lemma no_title_no_table_witness :
  find_tables_in_spreadsheet sheet_no_title = Some [] ∧
  process_grid sheet_no_title = Some [].
Proof. exact (no_title_no_table sheet_no_title sheet_no_title_cells). Defined.

(** X3: the [already_used] test at the head of the loop never skips an
    occurrence: when the loop ends, the counter of every title that
    occurs is its number of occurrences less one, and a title that does
    not occur has no counter. *)
Theorem every_occurrence_is_counted (df : DataFrame) :
  ∃ st, find_tables_run df = Some st ∧
    ∀ base_title,
      title_counts st !! base_title =
        match count_title base_title (locate_table_titles df) with
        | 0 => None
        | S k => Some k
        end.
Proof.
  destruct (find_tables_run_inv df) as (st & Hrun & _ & _ & _ & _ & Hcnt & _).
  by exists st.
Qed.

(** ** The extracted block *)

Lemma wf_iloc df top bottom left_ right_ :
  wf_df df → wf_df (iloc df top bottom left_ right_).
Proof.
  unfold wf_df, iloc. simpl. intros Hwf. rewrite Forall_fmap.
  assert (Forall (λ r, length r = ncols df) (slice top bottom (rows df))) as Hs
    by (unfold slice; by apply Forall_take, Forall_drop).
  eapply Forall_impl; [exact Hs|]. simpl. intros r Hr.
  by rewrite !length_slice, length_seq, Hr.
Qed.

Lemma wf_map_cells (f : cell → cell) df :
  wf_df df → wf_df {| ncols := ncols df; rows := map (map f) (rows df) |}.
Proof.
  unfold wf_df. simpl. intros Hwf. rewrite Forall_fmap.
  eapply Forall_impl; [exact Hwf|]. simpl. intros r Hr. by rewrite length_map.
Qed.

Lemma select_sublist {A} (mask : list bool) (l : list A) :
  select mask l `sublist_of` l.
Proof.
  revert l. induction mask as [|b mask IH]; intros [|x l]; simpl;
    try apply sublist_nil_l.
  destruct b; [by apply sublist_skip | by apply sublist_cons].
Qed.

Lemma select_lookup_true {A} (mask : list bool) (l : list A) (j : nat) (x : A) :
  mask !! j = Some true → l !! j = Some x → x ∈ select mask l.
Proof.
  revert l j. induction mask as [|b mask IH]; intros [|y l] [|j] Hm Hl;
    simplify_eq/=; [by left|].
  destruct b; [right|]; by eapply IH.
Qed.

Lemma all_na_false_inv (cells : list cell) :
  all_na cells = false → ∃ j x, cells !! j = Some x ∧ is_na x = false.
Proof.
  induction cells as [|c cells IH]; simpl; [done|].
  destruct (is_na c) eqn:Hc; simpl.
  - intros Hrest. destruct (IH Hrest) as (j & x & Hj & Hx). by exists (S j), x.
  - intros _. by exists 0, c.
Qed.

Lemma col_mask_lookup P df j :
  j < ncols df → col_mask P df !! j = Some (P (column df j)).
Proof.
  intros Hj. unfold col_mask. change (map ?f ?l) with (f <$> l).
  by rewrite list_lookup_fmap, lookup_seq_lt.
Qed.

Lemma dropna_cols_keeps_rows_nonblank df :
  wf_df df → Forall (λ r, all_na r = false) (rows df) →
  Forall (λ r, all_na r = false) (rows (dropna_cols df)).
Proof.
  intros Hwf Hrows. unfold dropna_cols, select_cols. simpl.
  rewrite Forall_fmap. apply Forall_forall. intros r Hr. simpl.
  unfold wf_df in Hwf. rewrite Forall_forall in Hrows, Hwf.
  destruct (all_na_false_inv r (Hrows r Hr)) as (j & x & Hj & Hx).
  apply (all_na_false_intro _ x); [|done].
  apply (select_lookup_true _ _ j); [|done].
  rewrite col_mask_lookup by (rewrite <- (Hwf r Hr); by eapply lookup_lt_Some).
  do 2 f_equal. apply negb_true_iff. apply (all_na_false_intro _ x); [|done].
  unfold column. apply list_elem_of_fmap. exists r. split; [|done].
  symmetry. exact (f_equal (default None) Hj).
Qed.

(** X4: for a rectangular grid, the block that [extract_table_block]
    returns is rectangular, has no fully blank row and no fully blank
    column, and holds no empty string: every blank cell is NA. *)
Theorem extract_table_block_dense (df : DataFrame) (top bottom left_ right_ : nat) :
  wf_df df →
  let block := extract_table_block df top bottom left_ right_ in
  wf_df block ∧
  Forall (λ r, all_na r = false) (rows block) ∧
  Forall (λ c, all_na c = false) (columns_of block) ∧
  ∀ r, r ∈ rows block → Some "" ∉ r.
Proof.
  intros Hwf block. subst block. unfold extract_table_block.
  set (b0 := iloc df top bottom left_ right_).
  set (b1 := {| ncols := ncols b0; rows := map (map replace_empty) (rows b0) |}).
  set (b2 := dropna_rows b1).
  assert (wf_df b1) as Hwf1 by apply wf_map_cells, wf_iloc, Hwf.
  assert (wf_df b2) as Hwf2 by by apply wf_filter_rows.
  assert (Forall (λ r, all_na r = false) (rows b2)) as Hrows2.
  { apply Forall_forall. intros r Hr. by apply list_elem_of_filter in Hr as [? _]. }
  split_and!.
  - apply wf_select_cols; [done|]. by rewrite length_col_mask.
  - by apply dropna_cols_keeps_rows_nonblank.
  - unfold dropna_cols.
    rewrite columns_of_select_cols; [|done|by rewrite length_col_mask].
    rewrite col_mask_columns.
    eapply Forall_impl; [apply (select_self_Forall (λ col, negb (all_na col)))|].
    simpl. intros c Hc. by apply negb_true_iff.
  - intros r Hr Hempty. unfold dropna_cols, select_cols in Hr. simpl in Hr.
    apply list_elem_of_fmap in Hr as (r2 & -> & Hr2).
    apply (λ H, elem_of_sublist _ _ _ H (select_sublist _ _)) in Hempty.
    apply list_elem_of_filter in Hr2 as [_ Hr1]. simpl in Hr1.
    apply list_elem_of_fmap in Hr1 as (r0 & -> & _).
    apply list_elem_of_fmap in Hempty as (c & Hc & _).
    by destruct c as [[|]|].
Qed.

Lemma sheet_three_anchors_wf : wf_df sheet_three_anchors.
Proof. unfold wf_df, sheet_three_anchors. simpl. by repeat constructor. Qed.

Lemma extract_table_block_dense_witness :
  let block := extract_table_block sheet_three_anchors 2 4 0 4 in
  wf_df block ∧
  Forall (λ r, all_na r = false) (rows block) ∧
  Forall (λ c, all_na c = false) (columns_of block) ∧
  ∀ r, r ∈ rows block → Some "" ∉ r.
Proof.
  exact (extract_table_block_dense sheet_three_anchors 2 4 0 4
           sheet_three_anchors_wf).
Defined.

(** ** What the cleaner keeps *)





Lemma rows_shrunk_sublist_l (out src : list (list cell)) :
  out `sublist_of` src → rows_shrunk out src.
Proof.
  intros Hsub. exists out. split; [done|]. by apply Forall_Forall2_diag, Forall_true.
Qed.

Lemma rows_shrunk_map (f : list cell → list cell) (out src : list (list cell)) :
  (∀ r, f r `sublist_of` r) → rows_shrunk out src → rows_shrunk (map f out) src.
Proof.
  intros Hf (kept & Hkept & Hall). exists kept. split; [done|].
  change (map f out) with (f <$> out). apply Forall2_fmap_l.
  eapply Forall2_impl; [exact Hall|]. simpl. intros o r Hor.
  by transitivity o.
Qed.

Lemma Forall2_sublist_l {A B} (R : A → B → Prop) (l1 l1' : list A) (l2 : list B) :
  l1' `sublist_of` l1 → Forall2 R l1 l2 →
  ∃ l2', l2' `sublist_of` l2 ∧ Forall2 R l1' l2'.
Proof.
  intros Hsub. revert l2. induction Hsub as [|x l1' l1 Hsub IH|x l1' l1 Hsub IH];
    intros l2 Hall.
  - exists []. split; [apply sublist_nil_l | constructor].
  - apply Forall2_cons_inv_l in Hall as (y & l2t & Hxy & Hall & ->).
    destruct (IH _ Hall) as (l2' & Hs & Hf).
    exists (y :: l2'). split; [by apply sublist_skip | by constructor].
  - apply Forall2_cons_inv_l in Hall as (y & l2t & Hxy & Hall & ->).
    destruct (IH _ Hall) as (l2' & Hs & Hf).
    exists l2'. split; [by apply sublist_cons | done].
Qed.

Lemma rows_shrunk_sublist (out' out src : list (list cell)) :
  out' `sublist_of` out → rows_shrunk out src → rows_shrunk out' src.
Proof.
  intros Hsub (kept & Hkept & Hall).
  destruct (Forall2_sublist_l _ _ _ _ Hsub Hall) as (kept' & Hk' & Hall').
  exists kept'. split; [by transitivity kept | done].
Qed.

Lemma slice_sublist {A} (a b : nat) (l : list A) : slice a b l `sublist_of` l.
Proof.
  unfold slice. transitivity (drop a l); [apply sublist_take | apply sublist_drop].
Qed.

Lemma wf_trim_cols (data : DataFrame) (t : Z) :
  wf_df data → wf_df (trim_blank_edges data false t).
Proof.
  intros Hwf. rewrite trim_blank_edges_cols. unfold wf_df. simpl.
  rewrite Forall_fmap. eapply Forall_impl; [exact Hwf|]. simpl.
  intros r Hr. by rewrite !length_slice, length_seq, Hr.
Qed.

(** X6: [clean_up_table] only removes: on a rectangular block the result
    is rectangular, it has no more columns than the block, and its rows
    are rows of the block, in their order, with cells dropped and none
    changed, added or moved. *)
Theorem clean_up_table_only_removes (df : DataFrame) (rthr cthr : Q) (t : Z) :
  wf_df df →
  let out := clean_up_table df rthr cthr t in
  wf_df out ∧ ncols out ≤ ncols df ∧ rows_shrunk (rows out) (rows df).
Proof.
  intros Hwf out. subst out. unfold clean_up_table.
  set (f := filter_rows_columns df rthr cthr).
  assert (wf_df f) as Hwff by by apply wf_filter_rows_columns.
  assert (ncols f ≤ ncols df) as Hnf.
  { subst f. unfold filter_rows_columns, select_cols. simpl.
    etrans; [apply sublist_length, select_sublist|]. by rewrite length_seq. }
  assert (rows_shrunk (rows f) (rows df)) as Hsf.
  { subst f. unfold filter_rows_columns, select_cols. simpl.
    apply rows_shrunk_map; [intros r; apply select_sublist|].
    apply rows_shrunk_sublist_l, sublist_filter. }
  split_and!.
  - by apply wf_trim_cols, wf_trim_rows.
  - rewrite trim_blank_edges_cols, trim_blank_edges_rows. simpl.
    etrans; [apply sublist_length, slice_sublist|]. by rewrite length_seq.
  - rewrite trim_blank_edges_cols, trim_blank_edges_rows. simpl.
    apply rows_shrunk_map; [intros r; apply slice_sublist|].
    eapply rows_shrunk_sublist; [apply slice_sublist | done].
Qed.

Lemma clean_up_table_only_removes_witness :
  let out := clean_up_table block_two_rows_over_gap default_ratio default_ratio
               default_streak in
  wf_df out ∧ ncols out ≤ ncols block_two_rows_over_gap ∧
  rows_shrunk (rows out) (rows block_two_rows_over_gap).
Proof.
  exact (clean_up_table_only_removes block_two_rows_over_gap default_ratio
           default_ratio default_streak block_two_rows_over_gap_wf).
Defined.

(** X7: [trim_blank_edges] never removes content: on the row axis every
    row that is not fully blank is kept, and on the column axis every
    cell that is not blank is still found in its row. *)
Theorem trim_blank_edges_keeps_content (data : DataFrame) (t : Z) :
  (∀ r, r ∈ rows data → all_na r = false →
        r ∈ rows (trim_blank_edges data true t)) ∧
  (∀ i row j s,
     rows data !! i = Some row → j < ncols data → row !! j = Some (Some s) →
     ∃ row' j', rows (trim_blank_edges data false t) !! i = Some row' ∧
                row' !! j' = Some (Some s)).
Proof.
  split.
  - intros r Hr Hna. rewrite trim_blank_edges_rows. simpl.
    by apply trim_keeps_nonblank.
  - intros i row j s Hrow Hj Hcell. rewrite trim_blank_edges_cols. simpl.
    set (b := trim_bounds (col_mask all_na data) t).
    assert (j ∈ slice b.1 b.2 (seq 0 (ncols data))) as Hin.
    { apply (trim_keeps_nonblank (λ j, all_na (column data j))).
      - apply elem_of_seq. lia.
      - apply (all_na_false_intro _ (Some s)); [|done].
        unfold column. apply list_elem_of_fmap. exists row.
        split; [|by eapply list_elem_of_lookup_2].
        symmetry. exact (f_equal (default None) Hcell). }
    apply list_elem_of_lookup in Hin as [k Hk]. rewrite slice_lookup in Hk.
    case_bool_decide as Hlt; [|done]. apply lookup_seq in Hk as [Hk _].
    exists (slice b.1 b.2 row), k. split.
    + change (map ?f ?l) with (f <$> l). by rewrite list_lookup_fmap, Hrow.
    + rewrite slice_lookup, bool_decide_true by done.
      replace (b.1 + k) with j by lia. done.
Qed.

(** ** The whole pipeline *)

Lemma wf_extract_table_block df top bottom left_ right_ :
  wf_df df → wf_df (extract_table_block df top bottom left_ right_).
Proof.
  intros Hwf. unfold extract_table_block, dropna_cols.
  apply wf_select_cols; [|by rewrite length_col_mask].
  apply wf_filter_rows. by apply (wf_map_cells replace_empty), wf_iloc.
Qed.

Lemma wf_clean_up_table df rthr cthr t :
  wf_df df → wf_df (clean_up_table df rthr cthr t).
Proof.
  intros Hwf. unfold clean_up_table.
  by apply wf_trim_cols, wf_trim_rows, wf_filter_rows_columns.
Qed.

Lemma dict_fold_fresh {A V} (f : A → V) (l : list (string * A)) :
  NoDup l.*1 →
  foldl (λ d '(k, v), dict_set k (f v) d) [] l = (λ '(k, v), (k, f v)) <$> l.
Proof.
  induction l as [|[k v] l IH] using rev_ind; intros Hnd; [done|].
  rewrite fmap_app in Hnd. apply NoDup_app in Hnd as (Hnd & Hdis & _).
  rewrite foldl_snoc, IH by done. rewrite fmap_app. simpl.
  apply dict_set_fresh. unfold dict_keys. rewrite <- list_fmap_compose.
  intros Hin. apply (Hdis k); [|by left].
  apply list_elem_of_fmap in Hin as ([k' v'] & Hk & Hin). simpl in Hk. subst k'.
  apply list_elem_of_fmap. by exists (k, v').
Qed.

Lemma process_grid_spec (df : DataFrame) :
  ∃ st,
    find_tables_run df = Some st ∧
    process_grid df =
      Some ((λ e, (e.1.2, convert_table_to_list
                            (clean_up_table (block_of df e.2) default_ratio
                               default_ratio default_streak))) <$> emitted st) ∧
    NoDup ((λ e : position * string * rect, e.1.2) <$> emitted st).
Proof.
  destruct (find_tables_run_spec df) as (st & Hrun & Hlog & Htab).
  assert (NoDup ((λ e : position * string * rect, e.1.2) <$> emitted st)) as Hnd
    by (rewrite Hlog; apply log_names_NoDup).
  exists st. split_and!; [done| |done].
  unfold process_grid, find_tables_in_spreadsheet. rewrite Hrun. simpl.
  rewrite Htab. f_equal.
  etrans; [apply (dict_fold_fresh
                    (λ block, convert_table_to_list
                                (clean_up_table block default_ratio default_ratio
                                   default_streak)))|].
  - by rewrite <- list_fmap_compose.
  - by rewrite <- list_fmap_compose.
Qed.

Lemma process_grid_keys_NoDup df tables :
  process_grid df = Some tables → NoDup (dict_keys tables).
Proof.
  destruct (process_grid_spec df) as (st & _ & Hgrid & Hnd).
  rewrite Hgrid. intros [= <-]. unfold dict_keys. by rewrite <- list_fmap_compose.
Qed.

(** X8: for every rectangular grid the pipeline after decoding never
    raises; the final mapping has one table per emitted block, under the
    same names and in the same order, without a repeated name; each table
    is the converted cleaned block, and all its rows have one length. *)
Theorem process_grid_tables (df : DataFrame) :
  wf_df df →
  ∃ st tables,
    find_tables_run df = Some st ∧
    process_grid df = Some tables ∧
    tables =
      (λ e, (e.1.2, convert_table_to_list
                      (clean_up_table (block_of df e.2) default_ratio default_ratio
                         default_streak))) <$> emitted st ∧
    NoDup (dict_keys tables) ∧
    ∀ name table, (name, table) ∈ tables →
                  ∃ width, Forall (λ row, length row = width) table.
Proof.
  intros Hwf. destruct (process_grid_spec df) as (st & Hrun & Hgrid & Hnd).
  eexists st, _. split_and!; [done|done|done| |].
  - unfold dict_keys. by rewrite <- list_fmap_compose.
  - intros name table Hin. apply list_elem_of_fmap in Hin as (e & Heq & He).
    simplify_eq. destruct e as [[p name] [[[top bottom] lft] rgt]]. simpl.
    set (cleaned := clean_up_table _ _ _ _).
    assert (wf_df cleaned) as Hwfc
      by apply wf_clean_up_table, wf_extract_table_block, Hwf.
    exists (ncols cleaned). unfold convert_table_to_list. rewrite Forall_fmap.
    eapply Forall_impl; [exact Hwfc|]. simpl. intros r Hr. by rewrite length_map.
Qed.

Lemma process_grid_tables_witness :
  ∃ st tables,
    find_tables_run sheet_three_anchors = Some st ∧
    process_grid sheet_three_anchors = Some tables ∧
    tables =
      (λ e, (e.1.2, convert_table_to_list
                      (clean_up_table (block_of sheet_three_anchors e.2)
                         default_ratio default_ratio default_streak)))
        <$> emitted st ∧
    NoDup (dict_keys tables) ∧
    ∀ name table, (name, table) ∈ tables →
                  ∃ width, Forall (λ row, length row = width) table.
Proof. exact (process_grid_tables sheet_three_anchors sheet_three_anchors_wf). Defined.

(** ** The vertical spans tile the grid below the first anchor row *)

Lemma max_below (l : list nat) (x : nat) :
  (∃ y, y ∈ l ∧ y ≤ x) →
  ∃ a, a ∈ l ∧ a ≤ x ∧ ∀ y, y ∈ l → y ≤ x → y ≤ a.
Proof.
  induction l as [|z l IH]; intros (y & Hy & Hyx); [by apply elem_of_nil in Hy|].
  destruct (decide (Exists (λ y', y' ≤ x) l)) as [Hex|Hnex];
    rewrite Exists_exists in Hex || rewrite Exists_exists in Hnex.
  - destruct (IH Hex) as (a & Ha & Hax & Hmax).
    destruct (decide (z ≤ x ∧ a < z)) as [[Hzx Haz]|Hno].
    + exists z. split_and!; [by left|done|]. intros y' Hy' Hy'x.
      apply elem_of_cons in Hy' as [->|Hy']; [done|].
      specialize (Hmax y' Hy' Hy'x). lia.
    + exists a. split_and!; [by right|done|]. intros y' Hy' Hy'x.
      apply elem_of_cons in Hy' as [->|Hy']; [lia|]. by apply Hmax.
  - apply elem_of_cons in Hy as [->|Hy]; [|exfalso; apply Hnex; eauto].
    exists z. split_and!; [by left|done|]. intros y' Hy' Hy'x.
    apply elem_of_cons in Hy' as [->|Hy']; [done|]. exfalso. apply Hnex. eauto.
Qed.

(** X9: the vertical spans of [calculate_row_boundaries] tile the grid
    from the first anchor row down: every row at or below some anchor
    row, and inside the grid, lies in the span of exactly one anchor
    row. *)
Theorem row_spans_tile (tp : list position) (total_rows x : nat) :
  (∃ p, p ∈ tp ∧ pos_row p ≤ x) → x < total_rows →
  ∃ a b,
    calculate_row_boundaries tp total_rows !! a = Some b ∧ a ≤ x ∧ x < b ∧
    ∀ a' b', calculate_row_boundaries tp total_rows !! a' = Some b' →
             a' ≤ x → x < b' → a' = a.
Proof.
  intros (p & Hp & Hpx) Hx.
  destruct (max_below (pos_row <$> tp) x) as (a & Ha & Hax & Hmax).
  { exists (pos_row p). split; [|done]. apply list_elem_of_fmap. by exists p. }
  destruct (calculate_row_boundaries_is_Some tp total_rows a Ha) as [b Hb].
  pose proof (calculate_row_boundaries_lookup _ _ _ _ Hb) as [_ Hnext].
  assert (x < b) as Hxb.
  { destruct Hnext as [(Hbin & Hab & _)|(-> & _)]; [|done].
    destruct (decide (x < b)); [done|]. specialize (Hmax b Hbin). lia. }
  exists a, b. split_and!; [done..|].
  intros a' b' Hb' Ha'x Hxb'.
  apply calculate_row_boundaries_lookup in Hb' as [Ha' Hnext'].
  pose proof (Hmax a' Ha' Ha'x) as Hle.
  destruct (decide (a' = a)) as [|Hne]; [done|]. exfalso.
  destruct Hnext' as [(_ & _ & Hmin)|(_ & Hall)].
  - specialize (Hmin a Ha). lia.
  - specialize (Hall a Ha). lia.
Qed.

Lemma row_spans_tile_witness :
  ∃ a b,
    calculate_row_boundaries scenario_two_titles 20 !! a = Some b ∧ a ≤ 5 ∧ 5 < b ∧
    ∀ a' b', calculate_row_boundaries scenario_two_titles 20 !! a' = Some b' →
             a' ≤ 5 → 5 < b' → a' = a.
Proof.
  apply (row_spans_tile scenario_two_titles 20 5); [|lia].
  exists (3, 0, "DISCOUNT RATE"). split; [by left | unfold pos_row; simpl; lia].
Defined.

(** * Further properties of [main.py] *)

(** ** Uploads *)

Lemma dict_update_fresh {V} (tables : list (string * V)) :
  NoDup (dict_keys tables) → dict_update [] tables = tables.
Proof.
  intros Hnd. unfold dict_update.
  etrans; [apply (dict_fold_fresh (λ v, v)); exact Hnd|].
  rewrite <- (list_fmap_id tables) at 2. apply list_fmap_ext.
  by intros i [k v] _.
Qed.

Lemma process_excel_file_keys_NoDup read_excel data tables :
  process_excel_file read_excel data = Some tables → NoDup (dict_keys tables).
Proof.
  unfold process_excel_file. destruct (read_excel data) as [df|]; [|done]. simpl.
  apply process_grid_keys_NoDup.
Qed.

(** X10: [upload_excel] rejects a file whose name does not end in [.xls]
    or [.xlsx], whatever the case of its letters, before the bytes are
    decoded, and leaves the store alone; when the name is accepted and
    processing succeeds, the store becomes exactly the mapping that
    [process_excel_file] returned, nothing of the previous store is kept,
    and the response lists the new names in order. *)
Theorem upload_excel_outcomes
    (read_excel : list Byte.byte → option DataFrame)
    (filename : string) (data : list Byte.byte) (db : store) :
  let accepted := endswith (lower filename) ".xls" || endswith (lower filename) ".xlsx" in
  let out := upload_excel read_excel filename data db in
  (accepted = false → out = (HTTPException 400, db)) ∧
  (accepted = true →
   ∀ tables, process_excel_file read_excel data = Some tables →
             out = (Ok (dict_keys tables), tables)).
Proof.
  intros accepted out. subst accepted out. unfold upload_excel. split.
  - intros ->. done.
  - intros -> tables Htables. simpl. rewrite Htables.
    by rewrite dict_update_fresh by by eapply process_excel_file_keys_NoDup.
Qed.

Lemma upload_excel_outcomes_witness :
  ∃ tables,
    process_excel_file (λ _, Some sheet_three_anchors) [] = Some tables ∧
    upload_excel (λ _, Some sheet_three_anchors) "Book.XLSX" [] store_three =
      (Ok (dict_keys tables), tables).
Proof.
  eexists. split; [by vm_compute|].
  apply (proj2 (upload_excel_outcomes (λ _, Some sheet_three_anchors) "Book.XLSX"
                  [] store_three)); by vm_compute.
Defined.

Lemma process_grid_no_title df :
  locate_table_titles df = [] → process_grid df = Some [].
Proof.
  intros Hnil.
  unfold process_grid, find_tables_in_spreadsheet, find_tables_run, shape.
  by rewrite Hnil.
Qed.

(** X11: a workbook in which no cell is a catalog title uploads
    successfully, with an empty list of tables, and leaves the store
    empty; [list_tables] then answers 400 as if nothing had been
    uploaded. *)
Theorem upload_without_titles
    (read_excel : list Byte.byte → option DataFrame)
    (filename : string) (data : list Byte.byte) (db : store) (df : DataFrame) :
  endswith (lower filename) ".xls" || endswith (lower filename) ".xlsx" = true →
  read_excel data = Some df →
  (∀ r c, r < length (rows df) → c < ncols df →
          strip (str_cell (iat (fillna_empty df) r c)) ∉ TABLE_TITLES) →
  upload_excel read_excel filename data db = (Ok [], []) ∧
  list_tables [] = HTTPException 400.
Proof.
  intros Hname Hread Hno. split; [|done].
  unfold upload_excel. rewrite Hname. simpl.
  unfold process_excel_file. rewrite Hread. simpl.
  rewrite process_grid_no_title; [done|].
  apply locate_table_titles_nil. intros r c Hr Hc. apply Hno; [|done].
  simpl in Hr. by rewrite length_map in Hr.
Qed.

Lemma sheet_no_title_filled_cells r c :
  r < length (rows sheet_no_title) → c < ncols sheet_no_title →
  strip (str_cell (iat (fillna_empty sheet_no_title) r c)) ∉ TABLE_TITLES.
Proof.
  simpl. intros Hr Hc.
  assert (r = 0 ∨ r = 1) as [-> | ->] by lia;
    (assert (c = 0 ∨ c = 1) as [-> | ->] by lia);
    apply (bool_decide_unpack _); by vm_compute.
Qed.

Lemma upload_without_titles_witness :
  upload_excel (λ _, Some sheet_no_title) "plain.xls" [] store_three = (Ok [], []) ∧
  list_tables [] = HTTPException 400.
Proof.
  exact (upload_without_titles (λ _, Some sheet_no_title) "plain.xls" [] store_three
           sheet_no_title eq_refl eq_refl sheet_no_title_filled_cells).
Defined.

(** ** Name resolution *)

Lemma dict_get_is_Some {V} (k : string) (d : list (string * V)) :
  k ∈ dict_keys d → is_Some (dict_get k d).
Proof.
  unfold dict_keys. induction d as [|[k' v] d IH]; simpl; intros Hk;
    [by apply elem_of_nil in Hk|].
  case_decide; [eauto|]. apply IH. apply elem_of_cons in Hk as [->|Hk]; done.
Qed.

Lemma first_cell_is_inv (test : string → Prop) (row : list string) :
  first_cell_is test row → ∃ c rest, row = c :: rest ∧ test (strip c).
Proof. destruct row as [|c rest]; [done|]. intros Ht. by exists c, rest. Qed.

Lemma first_cell_is_impl (P Q : string → Prop) (row : list string) :
  (∀ s, P s → Q s) → first_cell_is P row → first_cell_is Q row.
Proof. intros HPQ. destruct row; simpl; [done | apply HPQ]. Qed.

Lemma list_find_le {A} (P : A → Prop) `{!∀ x, Decision (P x)} (l : list A) i x :
  l !! i = Some x → P x → ∃ j y, list_find P l = Some (j, y) ∧ j ≤ i.
Proof.
  intros Hi HP. destruct (list_find P l) as [[j y]|] eqn:Hfind.
  - exists j, y. split; [done|]. apply list_find_Some in Hfind as (_ & _ & Hmin).
    destruct (decide (j ≤ i)); [done|]. exfalso. apply (Hmin i x); [done|lia|done].
  - apply list_find_None in Hfind. rewrite Forall_forall in Hfind.
    exfalso. apply (Hfind x); [|done]. by eapply list_elem_of_lookup_2.
Qed.

Section QueryProperties.

Context (unquote : string → option string) (str_lower : string → string).
Context (float_of : string → option float) (round4 : float → float).

Local Abbreviation clean := (clean_parameter unquote).
Local Abbreviation find_table := (find_table_name unquote str_lower).
Local Abbreviation find_row := (find_row_name unquote str_lower).

Lemma find_table_name_cases (db : store) (name : string) :
  match find_table db name with
  | Ok k => k ∈ dict_keys db ∧ table_matches str_lower (clean name) k
  | HTTPException status =>
      status = 404 ∧ ∀ k, k ∈ dict_keys db → ¬ table_matches str_lower (clean name) k
  end.
Proof.
  unfold find_table_name. case_bool_decide as Hin; [split; [done | by left]|].
  destruct (list_find (λ t, lower_equal str_lower t (clean name)) (dict_keys db))
    as [[i k]|] eqn:H1.
  { apply list_find_Some in H1 as (Hk & HP & _).
    split; [by eapply list_elem_of_lookup_2 | right; by left]. }
  destruct (list_find (λ t, partial_match str_lower t (clean name)) (dict_keys db))
    as [[i k]|] eqn:H2.
  { apply list_find_Some in H2 as (Hk & HP & _).
    split; [by eapply list_elem_of_lookup_2 | right; by right]. }
  apply list_find_None in H1, H2. rewrite Forall_forall in H1, H2.
  split; [done|]. intros k Hk [->|[Hl|Hp]]; [done| |].
  - by apply (H1 k).
  - by apply (H2 k).
Qed.

(** X12: [find_table_name] answers only with the name of a stored table
    that matches the cleaned request exactly, up to case, or as a
    substring one way or the other; it raises 404, and no other status,
    exactly when no stored name matches in any of these ways. *)
Theorem find_table_name_sound (db : store) (name : string) :
  (∀ k, find_table db name = Ok k →
        k ∈ dict_keys db ∧ table_matches str_lower (clean name) k) ∧
  (∀ status, find_table db name = HTTPException status → status = 404) ∧
  (find_table db name = HTTPException 404 ↔
   ∀ k, k ∈ dict_keys db → ¬ table_matches str_lower (clean name) k).
Proof.
  pose proof (find_table_name_cases db name) as Hcases.
  destruct (find_table db name) as [k|status].
  - destruct Hcases as [Hk Hm]. split_and!.
    + by intros ? [= <-].
    + done.
    + split; [done|]. intros Hno. by destruct (Hno k Hk).
  - destruct Hcases as [-> Hno]. split_and!; [done| by intros ? [= <-] | done].
Qed.

(** X13: an exact match wins over every other match: when the cleaned
    request is a stored name, that name is the answer, even if an
    earlier table matches it up to case or as a substring.  Failing
    that, a match up to case wins over every substring match. *)
Theorem find_table_name_priority (db : store) (name : string) :
  (clean name ∈ dict_keys db → find_table db name = Ok (clean name)) ∧
  (clean name ∉ dict_keys db →
   (∃ k, k ∈ dict_keys db ∧ lower_equal str_lower k (clean name)) →
   ∃ k, find_table db name = Ok k ∧ lower_equal str_lower k (clean name)).
Proof.
  unfold find_table_name. split.
  - intros Hin. by rewrite bool_decide_true.
  - intros Hnin (k & Hk & Hl). rewrite bool_decide_false by done.
    apply list_elem_of_lookup in Hk as [i Hi].
    destruct (list_find_le (λ t, lower_equal str_lower t (clean name))
                (dict_keys db) i k Hi Hl) as (j & y & Hfind & _).
    rewrite Hfind. exists y. split; [done|].
    by apply list_find_Some in Hfind as (_ & ? & _).
Qed.

Lemma str_contains_empty (s : string) : str_contains s "" = true.
Proof. by destruct s. Qed.

(** X14: a request that is cleaned to the empty string, such as a name of
    blanks only, matches every table as a substring: unless a stored name
    is empty or lowers to the lowered empty string, the answer is the
    first table of the store. *)
Theorem find_table_name_blank_request
    (db : store) (name first : string) (table : list (list string)) (others : store) :
  str_lower "" = "" → clean name = "" →
  db = (first, table) :: others →
  (∀ k, k ∈ dict_keys db → k ≠ "" ∧ str_lower k ≠ "") →
  find_table db name = Ok first.
Proof.
  intros Hlow Hclean -> Hkeys. unfold find_table_name. rewrite Hclean.
  rewrite bool_decide_false by (intros Hin; by destruct (Hkeys _ Hin)).
  destruct (list_find (λ t, lower_equal str_lower t "") _) as [[i k]|] eqn:H1.
  { apply list_find_Some in H1 as (Hk & HP & _). exfalso.
    apply list_elem_of_lookup_2 in Hk. destruct (Hkeys _ Hk) as [_ Hne].
    apply Hne. unfold lower_equal in HP. by rewrite HP. }
  simpl. rewrite decide_True; [done|].
  left. rewrite Hlow. apply str_contains_empty.
Qed.

Lemma find_row_name_cases (table_data : list (list string)) (name : string) :
  match find_row table_data name with
  | Ok i => ∃ row, table_data !! i = Some row ∧ row_matches str_lower (clean name) row
  | HTTPException status =>
      status = 404 ∧
      ∀ row, row ∈ table_data → ¬ row_matches str_lower (clean name) row
  end.
Proof.
  unfold find_row_name, row_matches.
  destruct (list_find (first_cell_is (λ c, c = clean name)) table_data)
    as [[i row]|] eqn:H1.
  { apply list_find_Some in H1 as (Hrow & HP & _). exists row. split; [done|].
    eapply first_cell_is_impl; [|exact HP]. simpl. by left. }
  destruct (list_find (first_cell_is (λ c, lower_equal str_lower c (clean name)))
              table_data) as [[i row]|] eqn:H2.
  { apply list_find_Some in H2 as (Hrow & HP & _). exists row. split; [done|].
    eapply first_cell_is_impl; [|exact HP]. simpl. intros; right; by left. }
  destruct (list_find (first_cell_is (λ c, partial_match str_lower c (clean name)))
              table_data) as [[i row]|] eqn:H3.
  { apply list_find_Some in H3 as (Hrow & HP & _). exists row. split; [done|].
    eapply first_cell_is_impl; [|exact HP]. simpl. intros; right; by right. }
  apply list_find_None in H1, H2, H3. rewrite Forall_forall in H1, H2, H3.
  split; [done|]. intros row Hrow Hm.
  destruct row as [|c rest]; [done|]. simpl in Hm. destruct Hm as [He|[Hl|Hp]].
  - by apply (H1 (c :: rest)).
  - by apply (H2 (c :: rest)).
  - by apply (H3 (c :: rest)).
Qed.

(** X15: [find_row_name] answers only with the index of a row of the
    table that is not empty and whose stripped first cell matches the
    cleaned request exactly, up to case, or as a substring one way or the
    other; it raises 404, and no other status, exactly when no row
    matches.  The index is therefore always safe to read the row and its
    first cell. *)
Theorem find_row_name_sound (table_data : list (list string)) (name : string) :
  (∀ i, find_row table_data name = Ok i →
        ∃ c rest, table_data !! i = Some (c :: rest) ∧
                  row_matches str_lower (clean name) (c :: rest)) ∧
  (∀ status, find_row table_data name = HTTPException status → status = 404) ∧
  (find_row table_data name = HTTPException 404 ↔
   ∀ row, row ∈ table_data → ¬ row_matches str_lower (clean name) row).
Proof.
  pose proof (find_row_name_cases table_data name) as Hcases.
  destruct (find_row table_data name) as [i|status].
  - destruct Hcases as (row & Hrow & Hm). split_and!.
    + intros ? [= <-]. destruct row as [|c rest]; [done|]. by exists c, rest.
    + done.
    + split; [done|]. intros Hno. exfalso.
      apply (Hno row); [by eapply list_elem_of_lookup_2 | done].
  - destruct Hcases as [-> Hno]. split_and!; [done| by intros ? [= <-] | done].
Qed.

End QueryProperties.

Lemma find_table_name_priority_witness :
  find_table_name py_unquote lower store_three "DISCOUNT RATE" = Ok "DISCOUNT RATE" ∧
  partial_match lower "DISCOUNT RATE (1)" "DISCOUNT RATE".
Proof.
  split.
  - apply (proj1 (find_table_name_priority py_unquote lower store_three
                    "DISCOUNT RATE")).
    apply (bool_decide_unpack _). by vm_compute.
  - apply (bool_decide_unpack _). by vm_compute.
Defined.

Lemma store_three_keys k :
  k ∈ dict_keys store_three → k ≠ "" ∧ lower k ≠ "".
Proof.
  unfold dict_keys, store_three. simpl. intros Hk.
  repeat (apply elem_of_cons in Hk as [->|Hk]); [..|by apply elem_of_nil in Hk];
    split; by vm_compute.
Qed.

Lemma find_table_name_blank_request_witness :
  find_table_name py_unquote lower store_three "  " = Ok "DISCOUNT RATE (1)".
Proof.
  exact (find_table_name_blank_request py_unquote lower store_three "  "
           "DISCOUNT RATE (1)" _ _ eq_refl eq_refl eq_refl store_three_keys).
Defined.

(** ** The query endpoints *)

Section EndpointProperties.

Context (unquote : string → option string) (str_lower : string → string).
Context (float_of : string → option float) (round4 : float → float).

Local Abbreviation clean := (clean_parameter unquote).



(** X18: the names that [get_table_details] lists can be used to ask for
    a row: the name listed for a row with a first cell that is not blank
    is that cell, stripped, and when cleaning the parameter leaves the
    name as it is, [find_row_name] resolves it to the first row whose
    stripped first cell is that name, a row at or before the listed
    one. *)
Theorem listed_row_name_resolves
    (table_data : list (list string)) (i : nat) (c : string) (rest : list string) :
  table_data !! i = Some (c :: rest) → strip c ≠ "" →
  clean (strip c) = strip c →
  listed_row_name i (c :: rest) = strip c ∧
  ∃ j c' rest',
    find_row_name unquote str_lower table_data (strip c) = Ok j ∧ j ≤ i ∧
    table_data !! j = Some (c' :: rest') ∧ strip c' = strip c ∧
    ∀ j' c'' rest'', j' < j → table_data !! j' = Some (c'' :: rest'') →
                     strip c'' ≠ strip c.
Proof.
  intros Hrow Hne Hclean. split.
  - simpl. rewrite (bool_decide_false (strip c = "")) by done.
    rewrite bool_decide_false; [done|]. intros ->. by apply Hne.
  - unfold find_row_name. rewrite Hclean.
    destruct (list_find_le (first_cell_is (λ first_cell, first_cell = strip c))
                table_data i (c :: rest) Hrow) as (j & row & Hfind & Hji); [done|].
    rewrite Hfind. apply list_find_Some in Hfind as (Hj & HP & Hmin).
    destruct row as [|c' rest']; [done|]. simpl in HP.
    exists j, c', rest'. split_and!; [done..|].
    intros j' c'' rest'' Hlt Hj' Heq. by apply (Hmin j' (c'' :: rest'')).
Qed.

End EndpointProperties.

Lemma listed_row_name_resolves_witness :
  let table := [["DISCOUNT RATE"; "1"]; ["Revenue"; "100"; "abc"; "50.5"];
                [" Revenue "; "2"]] in
  listed_row_name 2 [" Revenue "; "2"] = "Revenue" ∧
  ∃ j c' rest',
    find_row_name py_unquote lower table "Revenue" = Ok j ∧ j ≤ 2 ∧
    table !! j = Some (c' :: rest') ∧ strip c' = "Revenue" ∧
    ∀ j' c'' rest'', j' < j → table !! j' = Some (c'' :: rest'') →
                     strip c'' ≠ "Revenue".
Proof.
  exact (listed_row_name_resolves py_unquote lower
           [["DISCOUNT RATE"; "1"]; ["Revenue"; "100"; "abc"; "50.5"];
            [" Revenue "; "2"]] 2 " Revenue " ["2"] eq_refl
           ltac:(by vm_compute) eq_refl).
Defined.

(** X19: a row whose first cell is blank matches every requested row
    name in the third pass of [find_row_name], the empty string being a
    substring of every string: for a table with such a row
    [find_row_name] never raises 404. *)
Theorem find_row_name_blank_first_cell
    (unquote : string → option string) (str_lower : string → string)
    (table_data : list (list string)) (i : nat) (c : string) (rest : list string)
    (requested_row_name : string) :
  str_lower "" = "" →
  table_data !! i = Some (c :: rest) → strip c = "" →
  ∃ j row, find_row_name unquote str_lower table_data requested_row_name = Ok j ∧
           table_data !! j = Some row.
Proof.
  intros Hlow Hrow Hblank.
  pose proof (find_row_name_cases unquote str_lower table_data requested_row_name)
    as Hcases.
  destruct (find_row_name unquote str_lower table_data requested_row_name)
    as [j|status].
  - destruct Hcases as (row & Hj & _). by exists j, row.
  - destruct Hcases as [_ Hnone]. exfalso.
    apply (Hnone (c :: rest)); [by eapply list_elem_of_lookup_2|].
    simpl. right; right. right. by rewrite Hblank, Hlow, str_contains_empty.
Qed.

Lemma find_row_name_blank_first_cell_witness :
  ∃ j row,
    find_row_name py_unquote lower
      [["DISCOUNT RATE"; "1"]; ["Revenue"; "100"]; [""; "3"]] "zzz" = Ok j ∧
    [["DISCOUNT RATE"; "1"]; ["Revenue"; "100"]; [""; "3"]] !! j = Some row.
Proof.
  exact (find_row_name_blank_first_cell py_unquote lower
           [["DISCOUNT RATE"; "1"]; ["Revenue"; "100"]; [""; "3"]] 2 "" ["3"] "zzz"
           eq_refl eq_refl eq_refl).
Defined.

(** ** Cleaned parameters and the names of an upload *)

Lemma string_app_cons (a : ascii) (s t : string) :
  String a s +:+ t = String a (s +:+ t).
Proof. done. Qed.

Lemma string_app_nil_l (s : string) : "" +:+ s = s.
Proof. done. Qed.

Lemma string_app_assoc (s1 s2 s3 : string) : (s1 +:+ s2) +:+ s3 = s1 +:+ (s2 +:+ s3).
Proof.
  induction s1 as [|a s1 IH]; [done|]. by rewrite !string_app_cons, IH.
Qed.

Lemma string_app_nil_r (s : string) : s +:+ "" = s.
Proof. induction s as [|a s IH]; [done|]. by rewrite string_app_cons, IH. Qed.

Lemma rev_app_append (s t u : string) :
  String.rev_app (s +:+ t) u = String.rev_app t (String.rev_app s u).
Proof.
  revert u. induction s as [|a s IH]; intros u; [done|].
  rewrite string_app_cons. simpl. apply IH.
Qed.

Lemma rev_app_rev_app (s t u : string) :
  String.rev_app (String.rev_app s t) u = String.rev_app t (s +:+ u).
Proof.
  revert t. induction s as [|a s IH]; intros t; [done|].
  simpl. by rewrite IH.
Qed.

Lemma string_rev_involutive (s : string) : String.rev (String.rev s) = s.
Proof. unfold String.rev. rewrite rev_app_rev_app. simpl. apply string_app_nil_r. Qed.

Lemma rev_app_acc (t acc u : string) :
  String.rev_app t (acc +:+ u) = String.rev_app t acc +:+ u.
Proof.
  revert acc. induction t as [|a t IH]; intros acc; [done|].
  simpl. by rewrite <- IH.
Qed.

Lemma string_rev_append (s t : string) :
  String.rev (s +:+ t) = String.rev t +:+ String.rev s.
Proof. unfold String.rev. rewrite rev_app_append. apply (rev_app_acc t ""). Qed.

Section StripByFacts.

Context (sp1 : ascii → bool) (sp2 : ascii → ascii → bool)
  (sp3 : ascii → ascii → ascii → bool).

Local Abbreviation skip := (skip_by sp1 sp2 sp3).
Local Abbreviation lstrip' := (lstrip_by sp1 sp2 sp3).

Lemma lstrip_by_unfold (s : string) :
  lstrip' s = match skip s with Some r => lstrip' r | None => s end.
Proof.
  destruct s as [|a [|b [|c s3]]]; simpl; [done|..].
  - by destruct (sp1 a).
  - destruct (sp1 a); [done|]. by destruct (sp2 a b).
  - destruct (sp1 a); [done|]. destruct (sp2 a b); [done|]. by destruct (sp3 a b c).
Qed.

Lemma skip_by_suffix (s r : string) :
  skip s = Some r → ∃ p, p ≠ "" ∧ s = p +:+ r.
Proof.
  destruct s as [|a [|b [|c s3]]]; simpl; [done|..].
  - destruct (sp1 a); [|done]. intros [= <-]. by exists (String a "").
  - destruct (sp1 a); [intros [= <-]; by exists (String a "")|].
    destruct (sp2 a b); [|done]. intros [= <-]. by exists (String a (String b "")).
  - destruct (sp1 a); [intros [= <-]; by exists (String a "")|].
    destruct (sp2 a b); [intros [= <-]; by exists (String a (String b ""))|].
    destruct (sp3 a b c); [|done]. intros [= <-].
    by exists (String a (String b (String c ""))).
Qed.

Lemma skip_by_app (s r q : string) :
  skip s = Some r → skip (s +:+ q) = Some (r +:+ q).
Proof.
  destruct s as [|a [|b [|c s3]]]; [done|..]; rewrite ?string_app_cons; simpl.
  - destruct (sp1 a); [|done]. by intros [= <-].
  - destruct (sp1 a); [by intros [= <-]|]. rewrite string_app_nil_l.
    destruct (sp2 a b); [|done]. intros [= <-]. by destruct q.
  - destruct (sp1 a); [by intros [= <-]|].
    destruct (sp2 a b); [by intros [= <-]|].
    destruct (sp3 a b c); [|done]. by intros [= <-].
Qed.

Lemma string_length_app (p r : string) :
  String.length (p +:+ r) = String.length p + String.length r.
Proof. induction p as [|a p IH]; [done|]. rewrite string_app_cons. simpl. by rewrite IH. Qed.

Lemma lstrip_by_ind (P : string → string → Prop) :
  (∀ s, skip s = None → P s s) →
  (∀ s r, skip s = Some r → P r (lstrip' r) → P s (lstrip' r)) →
  ∀ s, P s (lstrip' s).
Proof.
  intros Hnone Hsome s.
  remember (String.length s) as n eqn:Hn. revert s Hn.
  induction n as [n IH] using lt_wf_ind. intros s ->.
  rewrite lstrip_by_unfold. destruct (skip s) as [r|] eqn:Hs; [|by apply Hnone].
  apply Hsome; [done|]. apply (IH (String.length r)); [|done].
  apply skip_by_suffix in Hs as (p & Hp & ->). rewrite string_length_app.
  destruct p; [done|simpl; lia].
Qed.

Lemma lstrip_by_skip (s : string) : skip (lstrip' s) = None.
Proof. by apply (lstrip_by_ind (λ _ t, skip t = None)). Qed.

Lemma lstrip_by_fixed (s : string) : skip s = None → lstrip' s = s.
Proof. intros Hs. by rewrite lstrip_by_unfold, Hs. Qed.

Lemma lstrip_by_idemp (s : string) : lstrip' (lstrip' s) = lstrip' s.
Proof. apply lstrip_by_fixed, lstrip_by_skip. Qed.

Lemma lstrip_by_suffix (s : string) : ∃ p, s = p +:+ lstrip' s.
Proof.
  apply (lstrip_by_ind (λ s t, ∃ p, s = p +:+ t)).
  - intros s' _. by exists "".
  - intros s' r Hs [p Hp]. apply skip_by_suffix in Hs as (p' & _ & ->).
    exists (p' +:+ p). by rewrite string_app_assoc, <- Hp.
Qed.

End StripByFacts.

Lemma strip_idemp (s : string) : strip (strip s) = strip s.
Proof.
  unfold strip. set (t := lstrip s). set (u := lstrip_reversed (String.rev t)).
  assert (lstrip (String.rev u) = String.rev u) as Hu.
  { apply lstrip_by_fixed.
    destruct (skip_by is_space is_space2 is_space3 (String.rev u)) as [r|] eqn:Hr;
      [exfalso|done].
    destruct (lstrip_by_suffix is_space (λ a b, is_space2 b a)
                (λ a b c, is_space3 c b a) (String.rev t)) as [p Hp].
    fold lstrip_reversed in Hp. fold u in Hp.
    apply (f_equal String.rev) in Hp.
    rewrite string_rev_involutive, string_rev_append in Hp.
    apply (skip_by_app _ _ _ _ _ (String.rev p)) in Hr. rewrite <- Hp in Hr.
    subst t. unfold lstrip in Hr. by rewrite lstrip_by_skip in Hr. }
  rewrite Hu, string_rev_involutive. subst u. unfold lstrip_reversed.
  by rewrite lstrip_by_idemp.
Qed.

Lemma ascii_plain_head (a b c : ascii) :
  ascii_plain a = true →
  is_space a = false ∧ is_space2 a b = false ∧ is_space3 a b c = false.
Proof.
  unfold ascii_plain, is_space2, is_space3. intros Ha.
  apply andb_true_iff in Ha as [Hlt Hns]. apply Nat.ltb_lt in Hlt.
  apply negb_true_iff in Hns. split; [done|].
  rewrite (proj2 (Nat.eqb_neq (nat_of_ascii a) 194)) by lia.
  rewrite (proj2 (Nat.eqb_neq (nat_of_ascii a) 225)) by lia.
  rewrite (proj2 (Nat.eqb_neq (nat_of_ascii a) 226)) by lia.
  rewrite (proj2 (Nat.eqb_neq (nat_of_ascii a) 227)) by lia.
  done.
Qed.

Lemma ascii_plain_tail (a b c : ascii) :
  ascii_plain a = true →
  is_space a = false ∧ is_space2 b a = false ∧ is_space3 c b a = false.
Proof.
  unfold ascii_plain, is_space2, is_space3. intros Ha.
  apply andb_true_iff in Ha as [Hlt Hns]. apply Nat.ltb_lt in Hlt.
  apply negb_true_iff in Hns. split; [done|].
  rewrite (proj2 (Nat.eqb_neq (nat_of_ascii a) 133)) by lia.
  rewrite (proj2 (Nat.eqb_neq (nat_of_ascii a) 160)) by lia.
  rewrite (proj2 (Nat.eqb_neq (nat_of_ascii a) 128)) by lia.
  rewrite (proj2 (Nat.eqb_neq (nat_of_ascii a) 168)) by lia.
  rewrite (proj2 (Nat.eqb_neq (nat_of_ascii a) 169)) by lia.
  rewrite (proj2 (Nat.eqb_neq (nat_of_ascii a) 175)) by lia.
  rewrite (proj2 (Nat.eqb_neq (nat_of_ascii a) 159)) by lia.
  rewrite (proj2 (Nat.leb_gt 128 (nat_of_ascii a))) by lia.
  by rewrite !andb_false_r.
Qed.

Lemma lstrip_plain (a : ascii) (s : string) :
  ascii_plain a = true → lstrip (String a s) = String a s.
Proof.
  intros Ha. apply lstrip_by_fixed. destruct s as [|b [|c s]]; simpl.
  - by destruct (ascii_plain_head a a a Ha) as (-> & _).
  - by destruct (ascii_plain_head a b a Ha) as (-> & -> & _).
  - by destruct (ascii_plain_head a b c Ha) as (-> & -> & ->).
Qed.

Lemma lstrip_reversed_plain (a : ascii) (s : string) :
  ascii_plain a = true → lstrip_reversed (String a s) = String a s.
Proof.
  intros Ha. apply lstrip_by_fixed. destruct s as [|b [|c s]]; simpl.
  - by destruct (ascii_plain_tail a a a Ha) as (-> & _).
  - by destruct (ascii_plain_tail a b a Ha) as (-> & -> & _).
  - by destruct (ascii_plain_tail a b c Ha) as (-> & -> & ->).
Qed.

Lemma strip_fixed (x : string) (a b : ascii) (s : string) :
  x = String a s → ascii_plain a = true → ascii_plain b = true →
  strip (x +:+ String b "") = x +:+ String b "".
Proof.
  intros -> Ha Hb. unfold strip.
  rewrite string_app_cons, (lstrip_plain a), <- string_app_cons by done.
  rewrite string_rev_append.
  change (String.rev (String b "")) with (String b "").
  rewrite string_app_cons, string_app_nil_l, lstrip_reversed_plain by done.
  change (String b (String.rev (String a s))) with
    (String.rev (String b "") +:+ String.rev (String a s)).
  by rewrite <- string_rev_append, string_rev_involutive.
Qed.

Lemma str_contains_char_cons (a c : ascii) (s : string) :
  str_contains (String a s) (String c "") =
    bool_decide (c = a) || str_contains s (String c "").
Proof.
  simpl. destruct (Ascii.ascii_dec c a) as [->|Hne].
  - rewrite bool_decide_true by done. by destruct s.
  - by rewrite bool_decide_false.
Qed.

Lemma str_contains_char_app (c : ascii) (s t : string) :
  str_contains (s +:+ t) (String c "") =
    str_contains s (String c "") || str_contains t (String c "").
Proof.
  induction s as [|a s IH]; [done|].
  rewrite string_app_cons, !str_contains_char_cons, IH. by rewrite orb_assoc.
Qed.

Lemma str_nat_no_percent (n : nat) : str_contains (str_nat n) "%" = false.
Proof.
  unfold str_nat.
  assert (∀ d, str_contains (NilEmpty.string_of_uint d) "%" = false) as H.
  { induction d; simpl NilEmpty.string_of_uint; [done|..];
      rewrite str_contains_char_cons, IHd; done. }
  unfold NilZero.string_of_uint. destruct (Nat.to_uint n); try done; apply H.
Qed.

Lemma name_of_clean (T : string) (k : nat) :
  T ∈ TABLE_TITLES →
  strip (name_of T k) = name_of T k ∧ str_contains (name_of T k) "%" = false.
Proof.
  intros HT. destruct k as [|k]; cbn [name_of].
  - catalog_cases HT; by vm_compute.
  - split.
    + rewrite <- !string_app_assoc.
      catalog_cases HT; (eapply strip_fixed; [apply string_app_cons|done..]).
    + rewrite !str_contains_char_app, str_nat_no_percent.
      catalog_cases HT; by vm_compute.
Qed.

(** X20: [clean_parameter] is [strip] after [unquote] (or of the
    parameter itself when [unquote] raises): the test [decoded != param]
    makes no difference to the result.  The result has no blank at either
    end: stripping it again changes nothing. *)
Theorem clean_parameter_stripped (unquote : string → option string) (param : string) :
  clean_parameter unquote param = strip (default param (unquote param)) ∧
  strip (clean_parameter unquote param) = clean_parameter unquote param.
Proof.
  assert (clean_parameter unquote param = strip (default param (unquote param)))
    as Hclean.
  { unfold clean_parameter. destruct (unquote param) as [decoded|]; [|done].
    simpl. case_bool_decide as Hne; [done|].
    destruct (decide (decoded = param)) as [->|]; done. }
  split; [done|]. rewrite Hclean. apply strip_idemp.
Qed.

Lemma process_grid_key_names df tables name :
  process_grid df = Some tables → name ∈ dict_keys tables →
  ∃ T k, T ∈ TABLE_TITLES ∧ name = name_of T k.
Proof.
  destruct (process_grid_spec df) as (st & Hrun & Hgrid & _).
  destruct (find_tables_run_spec df) as (st' & Hrun' & Hlog & _).
  rewrite Hrun in Hrun'. injection Hrun' as <-.
  rewrite Hgrid. intros [= <-]. unfold dict_keys. rewrite <- list_fmap_compose.
  intros Hin. apply list_elem_of_fmap in Hin as (e & -> & He). simpl.
  rewrite Hlog in He. apply elem_of_emitted in He as (Hp & _ & _ & Hname).
  eexists _, _. split; [|exact Hname].
  apply elem_of_locate_table_titles in Hp. tauto.
Qed.

Lemma py_unquote_no_percent (s : string) :
  str_contains s "%" = false → py_unquote s = Some s.
Proof.
  unfold py_unquote. intros Hs. f_equal. induction s as [|c s IH]; [done|].
  rewrite str_contains_char_cons in Hs. apply orb_false_iff in Hs as [Hc Hs].
  apply bool_decide_eq_false in Hc. simpl.
  destruct (Ascii.eqb_spec c "%") as [->|_]; [done|]. by rewrite IH.
Qed.

(** X21: the names that an upload returns can be used as they are: for
    any [unquote] that leaves a string without a percent sign unchanged,
    every name of the response of a successful [upload_excel] is a key of
    the new store, is left unchanged by [clean_parameter], and is resolved
    by [find_table_name] to itself, through the exact match. *)
Theorem uploaded_names_resolve
    (unquote : string → option string) (str_lower : string → string)
    (read_excel : list Byte.byte → option DataFrame)
    (filename : string) (data : list Byte.byte) (db0 : store)
    (names : list string) (db : store) :
  (∀ s, str_contains s "%" = false → unquote s = Some s) →
  upload_excel read_excel filename data db0 = (Ok names, db) →
  names = dict_keys db ∧
  ∀ name, name ∈ names →
    clean_parameter unquote name = name ∧
    find_table_name unquote str_lower db name = Ok name ∧
    is_Some (dict_get name db).
Proof.
  intros Hunq Hup. unfold upload_excel in Hup.
  destruct (negb _); [done|].
  destruct (process_excel_file read_excel data) as [tables|] eqn:Ht; [|done].
  rewrite dict_update_fresh in Hup by by eapply process_excel_file_keys_NoDup.
  injection Hup as <- <-. split; [done|]. intros name Hin.
  unfold process_excel_file in Ht. destruct (read_excel data) as [df|]; [|done].
  simpl in Ht.
  destruct (process_grid_key_names _ _ _ Ht Hin) as (T & k & HT & Hname).
  destruct (name_of_clean T k HT) as [Hstrip Hpct]. rewrite <- Hname in Hstrip, Hpct.
  assert (clean_parameter unquote name = name) as Hclean.
  { unfold clean_parameter. rewrite (Hunq _ Hpct).
    by rewrite bool_decide_false by (intros Hne; by apply Hne). }
  split_and!; [done| |by apply dict_get_is_Some].
  unfold find_table_name. rewrite Hclean. by rewrite bool_decide_true.
Qed.

Lemma uploaded_names_resolve_witness :
  let out := upload_excel (λ _, Some sheet_three_anchors) "Book.XLSX" [] store_three in
  dict_keys out.2 ≠ [] ∧
  ∀ name, name ∈ dict_keys out.2 →
    clean_parameter py_unquote name = name ∧
    find_table_name py_unquote lower out.2 name = Ok name ∧
    is_Some (dict_get name out.2).
Proof.
  intros out. split; [by vm_compute|].
  apply (proj2 (uploaded_names_resolve py_unquote lower
                  (λ _, Some sheet_three_anchors) "Book.XLSX" [] store_three
                  (dict_keys out.2) out.2 py_unquote_no_percent
                  ltac:(by vm_compute))).
Defined.

(** ** Where the boundaries are defined *)

(** X22: the two boundary look-ups are defined exactly on the rows that
    hold an anchor: [row_boundaries[r]] and [row_to_cols[r]] raise
    [KeyError] for every other row, and for a row with an anchor
    [determine_horizontal_boundaries] returns for every start column. *)
Theorem boundaries_defined_on_anchor_rows
    (tp : list position) (total_rows total_cols r c : nat) :
  (is_Some (calculate_row_boundaries tp total_rows !! r) ↔
   ∃ p, p ∈ tp ∧ pos_row p = r) ∧
  (is_Some (determine_horizontal_boundaries r c (group_titles_by_row tp) total_cols) ↔
   ∃ p, p ∈ tp ∧ pos_row p = r).
Proof.
  split.
  - split.
    + intros [b Hb]. apply calculate_row_boundaries_lookup in Hb as [Hin _].
      apply list_elem_of_fmap in Hin as (p & -> & Hp). by exists p.
    + intros (p & Hp & <-). apply calculate_row_boundaries_is_Some.
      apply list_elem_of_fmap. by exists p.
  - unfold determine_horizontal_boundaries. rewrite group_titles_by_row_lookup.
    destruct (cols_on_row tp r) as [|c0 cs] eqn:Hcs.
    + simpl. split; [by intros [? ?]|]. intros (p & Hp & Hr). exfalso.
      assert (pos_col p ∈ cols_on_row tp r) as Hin
        by (apply elem_of_cols_on_row; by exists p).
      rewrite Hcs in Hin. by apply elem_of_nil in Hin.
    + simpl. split.
      * intros _. assert (c0 ∈ cols_on_row tp r) as Hin by (rewrite Hcs; by left).
        apply elem_of_cols_on_row in Hin as (p & Hp & Hr & _). by exists p.
      * intros _. case_bool_decide; [|eauto].
        destruct (list_find _ _) as [[? ?]|]; eauto.
Qed.
